(** * rpt2pnp: the G-code pick-and-place back end (gcode-picknplace.cc)

    A shallow embedding of [GCodePickNPlace]: the configuration reader
    [ParseConfig], the constructor, [Init], [PrintPart] and [Finish],
    together with the properties of the feed allocator and of the
    toolpath generator that the specification states.

    Conventions of the embedding.
    - C [float]/[double] values are rationals ([Q]). The sums [PrintPart]
      forms are rounded as C rounds them, to the nearest [float] or
      [double] with ties to even ([fadd], [dadd]); the operands of the two
      rotations and their scaling by [ANGLE_FACTOR] are kept exact, and so
      are the values [sscanf] delivers. Overflow to an infinity and NaNs
      are outside the model.
    - [Tape*] pointers are addresses into an explicit heap (a list of
      tapes); [new Tape()] allocates at the end of the heap.
    - [std::map<std::string, Tape*>] is a [gmap string addr].
    - [stdout] is the list of [printf] calls made, each recorded with its
      template and its arguments; [stderr] is the list of messages.
    - libc's [sscanf] is not code of this repository: it is a parameter
      (class [Libc]); a decimal scanner instantiates it for the examples.
    - C [int] values (the component count) are integers without overflow. *)

From Stdlib Require Import QArith Qround Qabs Qpower Lqa ZArith Ascii String.
From stdpp Require Import gmap strings list fin_maps.

Local Open Scope string_scope.

(** ** Numbers *)

(** [trunc] of a rational: rounding toward zero. *)
Definition Qtrunc (q : Q) : Z := Z.quot (Qnum q) (Zpos (Qden q)).

(** C's [fmod(x, y)]: [x - n*y] where [n] is [x/y] with its fractional
    part truncated, so the result carries the sign of [x]. *)
Definition fmod (x y : Q) : Q := (x - inject_Z (Qtrunc (x / y)) * y)%Q.

(** The exponent of a positive rational: the [k] with [2^k <= q < 2^(k+1)]. *)
Definition Qlog2 (q : Q) : Z :=
  let k := (Z.log2 (Qnum q) - Z.log2 (Zpos (Qden q)))%Z in
  if Qle_bool (2 ^ k) q then k else (k - 1)%Z.

(** The nearest integer, the even one of two that are equally near. *)
Definition round_half_even (q : Q) : Z :=
  let f := Qfloor q in
  match (q - inject_Z f ?= 1 # 2)%Q with
  | Lt => f
  | Gt => (f + 1)%Z
  | Eq => if Z.even f then f else (f + 1)%Z
  end.

(** IEEE 754 round-to-nearest-even into a binary format with [prec]
    significant bits whose subnormal numbers are the multiples of
    [2^emin]: the value is scaled so that its significand has [prec]
    bits, rounded to an integer and scaled back. *)
Definition round_binary (prec emin : Z) (q : Q) : Q :=
  if Qeq_bool q 0 then 0%Q
  else
    let e := Z.max (Qlog2 (Qabs q) - (prec - 1)) emin in
    let r := Qred (inject_Z (round_half_even (Qabs q / 2 ^ e)) * 2 ^ e) in
    if Qle_bool 0 q then r else (- r)%Q.

(** [float] is binary32 and [double] is binary64. *)
Definition round_float : Q -> Q := round_binary 24 (-149).
Definition round_double : Q -> Q := round_binary 53 (-1074).


(** [x + y] on two [float]s, and on two [double]s. *)
Definition fadd (x y : Q) : Q := round_float (x + y).
Definition dadd (x y : Q) : Q := round_double (x + y).

(** ** Input streams ([std::ifstream], [std::stringstream]) *)

(** The unread characters and the two state bits the code can observe
    or set ([badbit] is never set on an in-memory sequence). *)
Record istream := mkIstream {
  rest : string;
  eofbit : bool;
  failbit : bool
}.

Definition good (i : istream) : bool := negb (eofbit i) && negb (failbit i).

(** [std::stringstream parts(s)] and a freshly opened file with contents [s]. *)
Definition open (s : string) : istream :=
  {| rest := s; eofbit := false; failbit := false |}.

(** [isspace] in the "C" locale: space, \t, \n, \v, \f, \r. *)
Definition isspace (c : ascii) : bool :=
  let n := nat_of_ascii c in
  Nat.eqb n 32 || (Nat.leb 9 n && Nat.leb n 13).

Fixpoint skip_ws (s : string) : string :=
  match s with
  | String c s' => if isspace c then skip_ws s' else s
  | EmptyString => EmptyString
  end.

(** The characters up to the next whitespace, and what follows them. *)
Fixpoint read_word (s : string) : string * string :=
  match s with
  | String c s' =>
      if isspace c then (EmptyString, s)
      else let '(w, r) := read_word s' in (String c w, r)
  | EmptyString => (EmptyString, EmptyString)
  end.

Definition is_empty (s : string) : bool :=
  match s with EmptyString => true | _ => false end.

(** [in >> token] for a [std::string]. The sentry fails on a stream that
    is not good, or when skipping whitespace reaches the end; in both
    cases [token] keeps its value. Otherwise the token is replaced by the
    next word, and reading up to the end of the sequence sets [eofbit]. *)
Definition extract (i : istream) (token : string) : istream * string :=
  if good i then
    let r := skip_ws (rest i) in
    if is_empty r then
      ({| rest := EmptyString; eofbit := true; failbit := true |}, token)
    else
      let '(w, r') := read_word r in
      ({| rest := r'; eofbit := is_empty r'; failbit := false |}, w)
  else
    ({| rest := rest i; eofbit := eofbit i; failbit := true |}, token).

(** The scan of [getline(buffer, n+1, '\n')] over the unread characters:
    the stored characters, the unread rest, and the bits to set. The three
    stop conditions are tested in the order of the standard: end of the
    sequence ([eofbit]), the delimiter (extracted, not stored), [n]
    characters stored ([failbit]). *)
Fixpoint getline_scan (n : nat) (s : string) {struct s}
    : string * string * bool * bool :=
  match s with
  | EmptyString => (EmptyString, EmptyString, true, false)
  | String c s' =>
      if Ascii.eqb c "010" then (EmptyString, s', false, false)
      else match n with
           | O => (EmptyString, s, false, true)
           | S n' =>
               let '(b, r, e, f) := getline_scan n' s' in
               (String c b, r, e, f)
           end
  end.

(** [in.getline(buffer, size, '\n')]: on a stream that is not good nothing
    is read, [failbit] is set and the buffer is the empty string; when no
    character at all is extracted [failbit] is set as well. *)
Definition getline (i : istream) (size : nat) : istream * string :=
  if good i then
    let '(b, r, e, f) := getline_scan (size - 1) (rest i) in
    ({| rest := r; eofbit := e; failbit := f || is_empty (rest i) |}, b)
  else
    ({| rest := rest i; eofbit := eofbit i; failbit := true |}, EmptyString).

(** [token[0] == c] for a token that is not empty. *)
Definition first_is (c : ascii) (token : string) : bool :=
  match token with String c' _ => Ascii.eqb c' c | EmptyString => false end.

(** A [char] array read as a C string ends at its first NUL. *)
Fixpoint c_str (s : string) : string :=
  match s with
  | EmptyString => EmptyString
  | String c s' => if Ascii.eqb c "000" then EmptyString else String c (c_str s')
  end.

(** ** libc *)

(** [sscanf_floats b] is the sequence of values that successive [%f]
    conversions, each skipping leading whitespace, read from the start of
    [b], up to the first conversion that fails; [sscanf(b, "%f %f", ..)]
    converts the first two of them and returns how many it converted (or
    [EOF], which equals no positive count). [sscanf_int b] is the value of
    a single [%d] conversion, if it succeeds. *)
Class Libc := {
  sscanf_floats : string -> list Q;
  sscanf_int : string -> option Z
}.

(** ** Tape (tape.h) *)

(** Modelled from the spec: class [Tape] (tape.h, tape.cc) is not part of
    the sources at hand. The record has the fields of the data model
    (origin, spacing, angle, capacity, cursor); the setters store their
    arguments; [GetNextPos] and [angle] follow the allocator contract. *)
Record Tape := mkTape {
  origin : Q * Q * Q;
  spacing : Q * Q;
  angle : Q;
  capacity : Z;
  cursor : Z
}.

(** Modelled from the spec: [Tape::Tape()]. The cursor counts the slots
    already dispensed, so it starts at 0; the spec gives no defaults for
    the other fields and they are taken to be zero. *)
Definition Tape_new : Tape :=
  {| origin := (0, 0, 0)%Q; spacing := (0, 0)%Q; angle := 0%Q;
     capacity := 0%Z; cursor := 0%Z |}.

Definition SetFirstComponentPosition (x y z : Q) (t : Tape) : Tape :=
  {| origin := (x, y, z); spacing := spacing t; angle := angle t;
     capacity := capacity t; cursor := cursor t |}.

Definition SetComponentSpacing (dx dy : Q) (t : Tape) : Tape :=
  {| origin := origin t; spacing := (dx, dy); angle := angle t;
     capacity := capacity t; cursor := cursor t |}.

Definition SetAngle (a : Q) (t : Tape) : Tape :=
  {| origin := origin t; spacing := spacing t; angle := a;
     capacity := capacity t; cursor := cursor t |}.

Definition SetNumberComponents (n : Z) (t : Tape) : Tape :=
  {| origin := origin t; spacing := spacing t; angle := angle t;
     capacity := n; cursor := cursor t |}.

(** Modelled from the spec: [Tape::GetNextPos]. "Computes slot cursor as
    origin + cursor * spacing (elementwise on x/y; z = origin.z),
    increments cursor, and returns the position. If cursor == capacity
    before the call, returns the Exhausted condition and does not mutate
    state." [None] is the [false] return; the tape after the call is the
    second component. *)
Definition GetNextPos (t : Tape) : option (Q * Q * Q) * Tape :=
  if Z.eqb (cursor t) (capacity t) then (None, t)
  else
    let '(ox, oy, oz) := origin t in
    let '(dx, dy) := spacing t in
    (Some (ox + inject_Z (cursor t) * dx, oy + inject_Z (cursor t) * dy, oz)%Q,
     {| origin := origin t; spacing := spacing t; angle := angle t;
        capacity := capacity t; cursor := (cursor t + 1)%Z |}).

(** ** Configuration ([GCodePickNPlace::Config]) *)

(** A [Tape*]: the index of the tape in the heap. *)
Abbreviation addr := nat (only parsing).

(** Modelled from the spec: [Position] is declared in printer.h, which is
    not part of the sources at hand; the record has the two members the
    code uses, [x] and [y] ("2D offset", "2D board-local coordinate"). *)
Record Position := mkPosition { pos_x : Q; pos_y : Q }.

Record Config := mkConfig {
  board_origin : Position;
  tape_for_component : gmap string addr
}.

(** [new Config()]: the origin is zero and the map is empty. *)
Definition Config_new : Config :=
  {| board_origin := {| pos_x := 0; pos_y := 0 |}; tape_for_component := ∅ |}.

Definition nl : string := String "010" EmptyString.

(** ** ParseConfig *)

(** The variables of [ParseConfig] that live across loop iterations, the
    heap of tapes and what was written to [stderr]. [result] is the
    [unique_ptr]: [None] after [reset(NULL)]. *)
Record locals := mkLocals {
  in_ : istream;
  result : option Config;
  current_tape : option addr;
  x_ : Q; y_ : Q; z_ : Q;
  heap : list Tape;
  cerr : list string
}.

Definition set_in (i : istream) (s : locals) : locals :=
  mkLocals i (result s) (current_tape s) (x_ s) (y_ s) (z_ s) (heap s) (cerr s).
Definition set_result (r : option Config) (s : locals) : locals :=
  mkLocals (in_ s) r (current_tape s) (x_ s) (y_ s) (z_ s) (heap s) (cerr s).
Definition set_current_tape (t : option addr) (s : locals) : locals :=
  mkLocals (in_ s) (result s) t (x_ s) (y_ s) (z_ s) (heap s) (cerr s).
Definition set_xyz (x y z : Q) (s : locals) : locals :=
  mkLocals (in_ s) (result s) (current_tape s) x y z (heap s) (cerr s).
Definition set_heap (h : list Tape) (s : locals) : locals :=
  mkLocals (in_ s) (result s) (current_tape s) (x_ s) (y_ s) (z_ s) h (cerr s).
Definition fprintf_stderr (msg : string) (s : locals) : locals :=
  mkLocals (in_ s) (result s) (current_tape s) (x_ s) (y_ s) (z_ s) (heap s)
           (cerr s ++ [msg]).

(** [result.reset(NULL)] when [bad] holds. *)
Definition reset_if (bad : bool) (msg : string) (s : locals) : locals :=
  if bad then set_result None (fprintf_stderr msg s) else s.

(** The target of the [k]-th conversion of a [sscanf]: the converted value
    if that conversion happened, the old contents otherwise. *)
Definition converted (old : Q) (vals : list Q) (k : nat) : Q :=
  default old (vals !! k).

(** The inner loop of the [Tape:] branch:
    [while (!parts.eof()) { parts >> token; map[token] = current_tape; }] *)
Fixpoint bind_names (fuel : nat) (parts : istream) (token : string)
    (tape : addr) (m : gmap string addr) : option (gmap string addr) :=
  match fuel with
  | O => None
  | S fuel' =>
      if eofbit parts then Some m
      else
        let '(parts', token') := extract parts token in
        bind_names fuel' parts' token' tape (<[token' := tape]> m)
  end.

Inductive flow := Next (s : locals) | Break (s : locals).

Section ParseConfig.
Context `{Libc}.

(** The part of the loop body after the line has been read: the chain of
    comparisons on [token], with [buffer] the rest of the line. [cfg] is
    the configuration [result] points to. The outcome is [None] only if the
    inner loop over the names of a [Tape:] line is given too little fuel,
    which [directive_total] excludes. *)
Definition directive (cfg : Config) (token buffer : string) (s : locals)
    : option flow :=
  if is_empty token || first_is "#" token then Some (Next s)
  else if String.eqb token "Board:" then
    Some (Next (set_current_tape None s))
  else if String.eqb token "Tape:" then
    let a := length (heap s) in
    let s := set_current_tape (Some a) (set_heap (heap s ++ [Tape_new]) s) in
    m ← bind_names (S (S (String.length buffer))) (open buffer) EmptyString a
          (tape_for_component cfg);
    Some (Next (set_result (Some (mkConfig (board_origin cfg) m)) s))
  else if String.eqb token "origin:" then
    match current_tape s with
    | Some a =>
        let vals := take 3 (sscanf_floats buffer) in
        let s := set_xyz (converted (x_ s) vals 0) (converted (y_ s) vals 1)
                         (converted (z_ s) vals 2) s in
        let s := reset_if (negb (Nat.eqb (length vals) 3))
                   ("Parse problem tape origin: '" ++ buffer ++ "'" ++ nl) s in
        Some (Next (set_heap
          (alter (SetFirstComponentPosition (x_ s) (y_ s) (z_ s)) a (heap s)) s))
    | None =>
        let vals := take 2 (sscanf_floats buffer) in
        let o := board_origin cfg in
        let o := {| pos_x := converted (pos_x o) vals 0;
                    pos_y := converted (pos_y o) vals 1 |} in
        let s := set_result (Some (mkConfig o (tape_for_component cfg))) s in
        Some (Next (reset_if (negb (Nat.eqb (length vals) 2))
                ("Parse problem board origin: '" ++ buffer ++ "'" ++ nl) s))
    end
  else if String.eqb token "spacing:" then
    match current_tape s with
    | None =>
        Some (Break (set_result None (fprintf_stderr "spacing without tape" s)))
    | Some a =>
        let vals := take 2 (sscanf_floats buffer) in
        let s := set_xyz (converted (x_ s) vals 0) (converted (y_ s) vals 1)
                         (z_ s) s in
        let s := reset_if (negb (Nat.eqb (length vals) 2))
                   ("Parse problem spacing: '" ++ buffer ++ "'" ++ nl) s in
        let s := reset_if (Qeq_bool (x_ s) 0 && Qeq_bool (y_ s) 0)
                   ("Spacing: eat least one needs to be set '" ++ buffer
                      ++ "'" ++ nl) s in
        Some (Next (set_heap
          (alter (SetComponentSpacing (x_ s) (y_ s)) a (heap s)) s))
    end
  else if String.eqb token "spacing:" then
    (* the same guard a second time, as in the source: this branch, the
       only one that calls SetAngle, is never taken *)
    match current_tape s with
    | None =>
        Some (Break (set_result None (fprintf_stderr "spacing without tape" s)))
    | Some a =>
        let vals := take 1 (sscanf_floats buffer) in
        let s := set_xyz (converted (x_ s) vals 0) (y_ s) (z_ s) s in
        let s := reset_if (negb (Nat.eqb (length vals) 1))
                   ("Parse problem angle: '" ++ buffer ++ "'" ++ nl) s in
        Some (Next (set_heap (alter (SetAngle (x_ s)) a (heap s)) s))
    end
  else if String.eqb token "count:" then
    match current_tape s with
    | None =>
        Some (Break (set_result None (fprintf_stderr "Count without tape." s)))
    | Some a =>
        (* [int count] is not initialised: after a failed conversion its
           value is indeterminate (0 here) and [result] is reset anyway *)
        let count := sscanf_int buffer in
        let s := reset_if (negb (bool_decide (is_Some count)))
                   ("Parse problem count: '" ++ buffer ++ "'." ++ nl) s in
        Some (Next (set_heap
          (alter (SetNumberComponents (default 0%Z count)) a (heap s)) s))
    end
  else Some (Next s).

(** [token.clear(); in >> token; in.getline(buffer, sizeof(buffer), '\n');] *)
Definition read_line (i : istream) : istream * string * string :=
  let '(in1, token) := extract i EmptyString in
  let '(in2, raw) := getline in1 1024 in
  (in2, token, c_str raw).

(** One pass through the body of [while (result && !in.eof())]. *)
Definition loop_body (cfg : Config) (s : locals) : option flow :=
  let '(in2, token, buffer) := read_line (in_ s) in
  directive cfg token buffer (set_in in2 s).

(** [while (result && !in.eof()) { ... }]. [None]: the fuel ran out. *)
Fixpoint parse_loop (fuel : nat) (s : locals) : option locals :=
  match fuel with
  | O => None
  | S fuel' =>
      match result s with
      | None => Some s
      | Some cfg =>
          if eofbit (in_ s) then Some s
          else
            match loop_body cfg s with
            | None => None
            | Some (Break s') => Some s'
            | Some (Next s') => parse_loop fuel' s'
            end
      end
  end.

(** The state in which the loop is entered, for a file that could be
    opened and has the given contents. The locals [x], [y], [z] are not
    initialised by the source; they are written by a successful [sscanf]
    before any use that reaches a returned configuration. *)
Definition ParseConfig_init (file : string) : locals :=
  {| in_ := open file; result := Some Config_new; current_tape := None;
     x_ := 0; y_ := 0; z_ := 0; heap := []; cerr := [] |}.

(** What [ParseConfig] leaves behind: the returned pointer
    ([result.release()], [None] for [NULL]), the heap of tapes the
    configuration points into, and the text on [stderr]. *)
Record parsed := mkParsed {
  config_ptr : option Config;
  tapes : list Tape;
  diagnostics : list string
}.

Definition ParseConfig_fuel (fuel : nat) (file : string) : option parsed :=
  s ← parse_loop fuel (ParseConfig_init file);
  Some (mkParsed (result s) (heap s) (cerr s)).

(** Every pass of the loop but the last reads at least one character, so
    two more passes than the file has characters are enough whenever the
    loop ends at all (see [parse_loop_fuel_enough]). *)
Definition ParseConfig (file : string) : option parsed :=
  ParseConfig_fuel (S (S (String.length file))) file.

End ParseConfig.

(** ** A decimal [sscanf]

    The instance used by the examples: optional whitespace, an optional
    sign, digits with an optional fraction. Exponents, hexadecimal
    literals, infinities and NaNs, which libc also accepts, are outside
    it; the general theorems hold for every [Libc]. *)

Definition digit (c : ascii) : option Z :=
  let n := nat_of_ascii c in
  if Nat.leb 48 n && Nat.leb n 57 then Some (Z.of_nat (n - 48)) else None.

(** The value of a run of digits after [acc], how many there were, and
    what follows them. *)
Fixpoint read_digits (s : string) (acc : Z) (count : nat) : Z * nat * string :=
  match s with
  | String c s' =>
      match digit c with
      | Some d => read_digits s' (10 * acc + d)%Z (S count)
      | None => (acc, count, s)
      end
  | EmptyString => (acc, count, s)
  end.

Definition read_sign (s : string) : bool * string :=
  match s with
  | String c s' =>
      if Ascii.eqb c "-" then (true, s')
      else if Ascii.eqb c "+" then (false, s')
      else (false, s)
  | EmptyString => (false, s)
  end.

Definition scan_float (s : string) : option (Q * string) :=
  let '(neg, s) := read_sign (skip_ws s) in
  let '(ip, n1, s) := read_digits s 0%Z 0 in
  let '(fp, n2, s) :=
    match s with
    | String c s' => if Ascii.eqb c "." then read_digits s' 0%Z 0 else (0%Z, 0, s)
    | EmptyString => (0%Z, 0, s)
    end in
  if Nat.eqb (n1 + n2) 0 then None
  else
    let scale := (10 ^ Z.of_nat n2)%Z in
    let v := Qred (Qmake (ip * scale + fp) (Z.to_pos scale)) in
    Some (if neg then Qopp v else v, s).

Fixpoint scan_floats (fuel : nat) (s : string) : list Q :=
  match fuel with
  | O => []
  | S fuel' =>
      match scan_float s with
      | Some (v, r) => v :: scan_floats fuel' r
      | None => []
      end
  end.

Definition scan_int (s : string) : option Z :=
  let '(neg, s) := read_sign (skip_ws s) in
  let '(v, n, _) := read_digits s 0%Z 0 in
  if Nat.eqb n 0 then None else Some (if neg then Z.opp v else v).

#[export] Instance decimal_libc : Libc := {|
  sscanf_floats s := scan_floats (String.length s) s;
  sscanf_int := scan_int
|}.

(** ** The generator *)

(** Modelled from the spec: [Part] is declared in printer.h, which is not
    part of the sources at hand; the record has the members [PrintPart]
    reads, the fields of a placement request in the spec's data model
    ([angle] is called [part_angle] here). *)
Record Part := mkPart {
  component_name : string;
  footprint : string;
  value : string;
  pos : Position;
  part_angle : Q
}.

Definition Z_HOVERING : Q := 10.
Definition TAPE_TO_BOARD_DIFFZ : Q := -2.
Definition ANGLE_FACTOR : Q := (5034965 # 100000) / 360.

(** One [printf] to [stdout]: the template and its arguments, in the
    order of the call. *)
Inductive printed :=
  | gcode_preamble
  | pick_gcode (name : string) (x y zup e zdown zup' : Q)
  | place_gcode (name : string) (x y zup e zdown zup' : Q)
  | gcode_finish.

(** The [GCodePickNPlace] object ([config_] and the tapes it points to)
    and the two output streams of the process. *)
Record machine := mkMachine {
  config_ : Config;
  tape_heap : list Tape;
  stdout : list printed;
  stderr : list string
}.

Definition printf (p : printed) (m : machine) : machine :=
  mkMachine (config_ m) (tape_heap m) (stdout m ++ [p]) (stderr m).
Definition fprintf_err (msg : string) (m : machine) : machine :=
  mkMachine (config_ m) (tape_heap m) (stdout m) (stderr m ++ [msg]).
Definition store_tape (a : addr) (t : Tape) (m : machine) : machine :=
  mkMachine (config_ m) (<[a := t]> (tape_heap m)) (stdout m) (stderr m).

(** The key [PrintPart] looks up: [part.footprint + "@" + part.value]. *)
Definition key_of (part : Part) : string :=
  footprint part ++ "@" ++ value part.

(** [print_name]: [part.component_name + " (" + key + ")"]. *)
Definition print_name (part : Part) : string :=
  component_name part ++ " (" ++ key_of part ++ ")".

(** The operands of the two rotations, before they are scaled by
    [ANGLE_FACTOR]: [fmod(tape->angle(), 360.0)] for the pick and
    [fmod(part.angle - tape->angle() + 360, 360.0)] for the place. *)
Definition pick_angle (orientation : Q) : Q := fmod orientation 360.
Definition place_angle (target orientation : Q) : Q :=
  fmod (target - orientation + 360) 360.

Definition Init (m : machine) : machine := printf gcode_preamble m.

(** [PrintPart]. [None] stands for undefined behaviour: the map holds a
    pointer to no tape (excluded for constructed machines by
    [PrintPart_defined]). [GetNextPos] works on the tape in the heap, so
    whatever it leaves there is stored back, whether it returns a
    position or not. [px], [py], [pz], the target and the board origin
    are [float]s and [Z_HOVERING] is an [int], so [pz + Z_HOVERING] and
    the two coordinates of the place block are [float] sums;
    [TAPE_TO_BOARD_DIFFZ] is a [double], so [pz + TAPE_TO_BOARD_DIFFZ]
    is a [double] sum. *)
Definition PrintPart (part : Part) (m : machine) : option machine :=
  let key := key_of part in
  match tape_for_component (config_ m) !! key with
  | None => Some (fprintf_err ("No tape for '" ++ key ++ "'" ++ nl) m)
  | Some a =>
      tape ← tape_heap m !! a;
      let '(next, tape') := GetNextPos tape in
      let m := store_tape a tape' m in
      match next with
      | None =>
          Some (fprintf_err
                  ("We are out of components for '" ++ key ++ "'" ++ nl) m)
      | Some (px, py, pz) =>
          let m := printf (pick_gcode (print_name part)
                     px py (fadd pz Z_HOVERING)
                     (ANGLE_FACTOR * pick_angle (angle tape'))
                     pz
                     (fadd pz Z_HOVERING))%Q m in
          Some (printf (place_gcode (print_name part)
                  (fadd (pos_x (pos part)) (pos_x (board_origin (config_ m))))
                  (fadd (pos_y (pos part)) (pos_y (board_origin (config_ m))))
                  (fadd pz Z_HOVERING)
                  (ANGLE_FACTOR * place_angle (part_angle part) (angle tape'))
                  (dadd pz TAPE_TO_BOARD_DIFFZ)
                  (fadd pz Z_HOVERING))%Q m)
      end
  end.

Definition Finish (m : machine) : machine := printf gcode_finish m.

(** [PrintPart] for each request of a list, in order. *)
Fixpoint PrintParts (parts : list Part) (m : machine) : option machine :=
  match parts with
  | [] => Some m
  | part :: parts' => m' ← PrintPart part m; PrintParts parts' m'
  end.

(** Modelled from the spec: the driver that calls the printer interface is
    not part of the sources at hand. "Data flow: ... for each placement
    request, in input order ... accumulated output stream, framed by a
    fixed preamble/postamble": [Init], then [PrintPart] per request in
    input order, then [Finish]. *)
Definition Run (parts : list Part) (m : machine) : option machine :=
  Finish <$> PrintParts parts (Init m).

(** The constructor: [config_(ParseConfig(filename))] followed by
    [assert(config_)]. *)
Inductive constructed :=
  | AssertionFailed (diag : list string)
  | Constructed (m : machine).

Section Constructor.
Context `{Libc}.

Definition GCodePickNPlace_new (file : string) : option constructed :=
  p ← ParseConfig file;
  Some match config_ptr p with
       | None => AssertionFailed (diagnostics p)
       | Some cfg => Constructed (mkMachine cfg (tapes p) [] (diagnostics p))
       end.

End Constructor.

(** ** Auxiliary notions for the proofs *)

(** The measure that every read decreases: nothing is left to do once
    [eofbit] is set. *)
Definition pending (i : istream) : nat :=
  if eofbit i then 0 else S (String.length (rest i)).

(** The values [token] takes in the inner loop of the [Tape:] branch, one
    per pass, in order: the keys the loop binds. *)
Fixpoint names (fuel : nat) (parts : istream) (token : string)
    : option (list string) :=
  match fuel with
  | O => None
  | S fuel' =>
      if eofbit parts then Some []
      else
        let '(parts', token') := extract parts token in
        (token' ::.) <$> names fuel' parts' token'
  end.

(** The keys a [Tape:] line with the given buffer binds. *)
Definition Tape_names (buffer : string) : list string :=
  default [] (names (S (S (String.length buffer))) (open buffer) EmptyString).

Definition bind_all (ks : list string) (a : addr) (m : gmap string addr)
    : gmap string addr :=
  foldl (fun m k => <[k := a]> m) m ks.

(** Every pointer the configuration holds, and [current_tape], points to
    an allocated tape. *)
Definition pointers_valid (m : gmap string addr) (h : list Tape) : Prop :=
  forall k a, m !! k = Some a -> a < length h.

Definition locals_valid (s : locals) : Prop :=
  (forall cfg, result s = Some cfg -> pointers_valid (tape_for_component cfg) (heap s))
  /\ (forall a, current_tape s = Some a -> a < length (heap s)).

Definition machine_valid (m : machine) : Prop :=
  pointers_valid (tape_for_component (config_ m)) (tape_heap m).

Definition flow_state (f : flow) : locals :=
  match f with Next s | Break s => s end.

(** The pairs of token and buffer that the loop reads from a stream until
    [eofbit] is set. *)
Fixpoint lines (fuel : nat) (i : istream) : list (string * string) :=
  match fuel with
  | O => []
  | S fuel' =>
      if eofbit i then []
      else let '(i', token, buffer) := read_line i in
           (token, buffer) :: lines fuel' i'
  end.

(** The lines of a file, as [ParseConfig] reads them. *)
Definition file_lines (file : string) : list (string * string) :=
  lines (S (S (String.length file))) (open file).

(** How many [Tape:] lines a list of lines has: the number of tapes
    allocated while reading them. *)
Definition count_Tape (ls : list (string * string)) : nat :=
  length (filter (fun l => l.1 = "Tape:") ls).

(** The tape a key resolves to after the given lines, when [n] tapes were
    allocated before them and the key resolved to [cur]: every [Tape:]
    line allocates the next address and binds the names it lists to it. *)
Fixpoint binding (k : string) (ls : list (string * string)) (n : nat)
    (cur : option addr) : option addr :=
  match ls with
  | [] => cur
  | (token, buffer) :: ls' =>
      if decide (token = "Tape:") then
        binding k ls' (S n)
          (if decide (k ∈ Tape_names buffer) then Some n else cur)
      else binding k ls' n cur
  end.

(** A file with the given lines, each ended by a newline. *)
Definition unlines (ls : list string) : string :=
  foldr (fun l acc => l ++ nl ++ acc) EmptyString ls.

(** [n] successive calls of [GetNextPos]: what they return, and the tape
    after the last. *)
Fixpoint GetNextPos_times (n : nat) (t : Tape)
    : list (option (Q * Q * Q)) * Tape :=
  match n with
  | O => ([], t)
  | S n' =>
      let '(r, t') := GetNextPos t in
      let '(rs, t'') := GetNextPos_times n' t' in
      (r :: rs, t'')
  end.

(** Two machines that differ at most in what is on [stderr]. *)
Definition same_but_stderr (m1 m2 : machine) : Prop :=
  config_ m1 = config_ m2 /\ tape_heap m1 = tape_heap m2
  /\ stdout m1 = stdout m2.

(** A request is accepted when its key has a tape and the tape still
    gives a position. *)
Definition accepted (part : Part) (m : machine) : Prop :=
  exists a t position t',
    tape_for_component (config_ m) !! key_of part = Some a /\
    tape_heap m !! a = Some t /\ GetNextPos t = (Some position, t').

(** What one request contributes to [stdout] on a given machine: if it is
    accepted, a pick block followed by a place block, both carrying the
    name of the request and the same hover height; otherwise nothing. *)
Definition block_of (part : Part) (m : machine) (b : list printed) : Prop :=
  (accepted part m /\
   exists x y zup e zdown x' y' e' zdown',
     b = [pick_gcode (print_name part) x y zup e zdown zup;
          place_gcode (print_name part) x' y' zup e' zdown' zup])
  \/ (~ accepted part m /\ b = []).

(** [blocks_of parts m blocks m']: serving the requests in order takes
    the machine from [m] to [m'], and [blocks] has, request by request,
    what each of them contributed to [stdout]. *)
Inductive blocks_of : list Part -> machine -> list (list printed) -> machine
    -> Prop :=
  | blocks_nil m : blocks_of [] m [] m
  | blocks_cons part parts m m1 m' b blocks :
      PrintPart part m = Some m1 -> block_of part m b ->
      blocks_of parts m1 blocks m' ->
      blocks_of (part :: parts) m (b :: blocks) m'.

(** A successful construction: what [ParseConfig] left behind together
    with the configuration it returned. *)
Definition ParseConfig_ok `{Libc} (file : string) : option (parsed * Config) :=
  p ← ParseConfig file; cfg ← config_ptr p; Some (p, cfg).

(** The tape a key of a returned configuration points to. *)
Definition tape_of (p : parsed) (key : string) : option Tape :=
  cfg ← config_ptr p; a ← tape_for_component cfg !! key; tapes p !! a.

(** The lines the loop rejects: a directive that needs a tape when there
    is none, a payload of which [sscanf] converts fewer values than the
    directive needs, and a spacing of zero in both directions. *)
Inductive rejected `{Libc} : string -> string -> option addr -> Prop :=
  | spacing_without_tape buffer : rejected "spacing:" buffer None
  | count_without_tape buffer : rejected "count:" buffer None
  | tape_origin_malformed buffer a :
      length (take 3 (sscanf_floats buffer)) <> 3 ->
      rejected "origin:" buffer (Some a)
  | board_origin_malformed buffer :
      length (take 2 (sscanf_floats buffer)) <> 2 ->
      rejected "origin:" buffer None
  | spacing_malformed buffer a :
      length (take 2 (sscanf_floats buffer)) <> 2 ->
      rejected "spacing:" buffer (Some a)
  | spacing_zero buffer a x y vals :
      sscanf_floats buffer = x :: y :: vals -> (x == 0)%Q -> (y == 0)%Q ->
      rejected "spacing:" buffer (Some a)
  | count_malformed buffer a :
      sscanf_int buffer = None -> rejected "count:" buffer (Some a).

(** [within n s]: the line that [s] starts in has at most [n] more
    characters, and every later line at most 1023: [getline] with a
    buffer of 1024 never overflows on [s]. *)
Fixpoint within (n : nat) (s : string) {struct s} : bool :=
  match s with
  | EmptyString => true
  | String c s' =>
      if Ascii.eqb c "010" then within 1023 s'
      else match n with O => false | S n' => within n' s' end
  end.

(** No line of the file has more than 1023 characters. *)
Definition short_lines (file : string) : Prop := within 1023 file = true.

(** ** Examples *)

(** A board at (100,200) and one reel of three components that feeds two
    kinds of part. *)
Definition example_machine : machine :=
  {| config_ :=
       {| board_origin := mkPosition 100 200;
          tape_for_component := <["0805@1k" := 0]> (<["0805@2k" := 0]> ∅) |};
     tape_heap := [mkTape (0, 0, 5)%Q (4, 0)%Q 90 3 0];
     stdout := []; stderr := [] |}.

(** The same machine after the reel has given its three components. *)
Definition example_spent : machine :=
  {| config_ := config_ example_machine;
     tape_heap := [mkTape (0, 0, 5)%Q (4, 0)%Q 90 3 3];
     stdout := []; stderr := [] |}.

Definition example_part : Part :=
  {| component_name := "R1"; footprint := "0805"; value := "1k";
     pos := mkPosition 5 5; part_angle := 10 |}.

Definition example_alias : Part :=
  {| component_name := "R2"; footprint := "0805"; value := "2k";
     pos := mkPosition 6 7; part_angle := 0 |}.

Definition example_unknown : Part :=
  {| component_name := "C1"; footprint := "0603"; value := "100n";
     pos := mkPosition 1 2; part_angle := 0 |}.



(** One reel of three components under the name "a@b@c", and two
    requests that spell that name differently. *)
Definition example_at_machine : machine :=
  {| config_ :=
       {| board_origin := mkPosition 100 200;
          tape_for_component := <["a@b@c" := 0]> ∅ |};
     tape_heap := [mkTape (0, 0, 5)%Q (4, 0)%Q 90 3 0];
     stdout := []; stderr := [] |}.

Definition example_at_left : Part :=
  {| component_name := "U1"; footprint := "a@b"; value := "c";
     pos := mkPosition 1 2; part_angle := 0 |}.

Definition example_at_right : Part :=
  {| component_name := "U2"; footprint := "a"; value := "b@c";
     pos := mkPosition 3 4; part_angle := 90 |}.

Definition example_file : string :=
  unlines ["# board and feeders";
           "Board:";
           "origin: 100 200";
           "";
           "Tape: 0805@1k 0805@2k";
           "origin: 0 0 5";
           "spacing: 4 0";
           "count: 3"].

(** A [Tape:] line with a name of 1024 characters. *)
Definition example_long_line : string :=
  unlines ["Tape: " ++ string_of_list_ascii (repeat "a"%char 1024)].

(** Membership in a list that computes. *)
Ltac solve_elem := apply (bool_decide_unpack _); by vm_compute.



(** ** Further notions *)

Definition flow_map (f : locals -> locals) (w : flow) : flow :=
  match w with Next s => Next (f s) | Break s => Break (f s) end.

(** The loop without the stream: the directives of a list of lines applied
    in order, until [result] is reset or a branch leaves the loop. *)
Fixpoint apply_lines `{Libc} (ls : list (string * string)) (s : locals)
    : option locals :=
  match ls with
  | [] => Some s
  | (token, buffer) :: ls' =>
      match result s with
      | None => Some s
      | Some cfg =>
          match directive cfg token buffer s with
          | None => None
          | Some (Break s') => Some s'
          | Some (Next s') => apply_lines ls' s'
          end
      end
  end.

(** What a state holds besides the stream and the scratch variables. *)
Definition outcome (s : locals) : parsed :=
  mkParsed (result s) (heap s) (cerr s).

(** A line the chain of comparisons does nothing with: no token, a
    comment, or a first token that is none of the five it knows. *)
Definition ignored (token : string) : Prop :=
  is_empty token || first_is "#" token = true
  \/ (token <> "Board:" /\ token <> "Tape:" /\ token <> "origin:"
      /\ token <> "spacing:" /\ token <> "count:").

(** [std::ifstream in(filename)] for a file that cannot be opened:
    [failbit] is set and there is nothing to read. *)
Definition open_failed : istream :=
  {| rest := EmptyString; eofbit := false; failbit := true |}.

(** The state in which the loop is entered when the locals [x], [y], [z],
    which the source does not initialise, hold the given values. *)
Definition ParseConfig_init_with (x y z : Q) (file : string) : locals :=
  {| in_ := open file; result := Some Config_new; current_tape := None;
     x_ := x; y_ := y; z_ := z; heap := []; cerr := [] |}.

(** The same reel block written with blank lines, indentation and
    carriage returns. *)
Definition example_file_spaced : string :=
  unlines ["";
           "    # board and feeders";
           "Board:";
           "";
           "  origin: 100 200";
           "";
           "";
           "Tape: 0805@1k 0805@2k";
           String "009" "origin: 0 0 5";
           "  spacing: 4 0";
           "   count: 3";
           ""].

(** Whether a string has the character ['@'] in it. *)
Fixpoint has_at (s : string) : bool :=
  match s with
  | EmptyString => false
  | String c s' => Ascii.eqb c "@" || has_at s'
  end.

(** Two states of the loop that differ at most in the scratch variables
    [x], [y], [z] and, once [result] is reset, in the tapes and in what
    is on [stderr]. *)
Definition same_but_scratch (s1 s2 : locals) : Prop :=
  in_ s1 = in_ s2 /\ current_tape s1 = current_tape s2 /\
  result s1 = result s2 /\ length (heap s1) = length (heap s2) /\
  (is_Some (result s1) -> heap s1 = heap s2 /\ cerr s1 = cerr s2).

(** * Properties *)

(** ** Streams *)

Lemma skip_ws_length s : String.length (skip_ws s) <= String.length s.
Proof.
  induction s as [|c s IH]; simpl; [lia|].
  destruct (isspace c); simpl; lia.
Qed.

Lemma read_word_length s w r :
  read_word s = (w, r) -> String.length w + String.length r = String.length s.
Proof.
  revert w r; induction s as [|c s IH]; simpl; intros w r E.
  - by inversion E.
  - destruct (isspace c).
    + by inversion E.
    + destruct (read_word s) as [w' r'] eqn:E'. inversion E; subst.
      simpl. specialize (IH _ _ eq_refl). lia.
Qed.

(** After skipping whitespace the next word is not empty. *)
Lemma read_word_skip_ws s w r :
  is_empty (skip_ws s) = false -> read_word (skip_ws s) = (w, r) ->
  is_empty w = false /\ String.length r < String.length s.
Proof.
  intros Hne E. pose proof (skip_ws_length s) as Hl.
  pose proof (read_word_length _ _ _ E) as Hw.
  assert (is_empty w = false) as Hw'.
  { clear Hl Hw. induction s as [|c s IH]; simpl in *; [done|].
    destruct (isspace c) eqn:Hc; [by apply IH|].
    simpl in E. rewrite Hc in E. destruct (read_word s); by inversion E. }
  split; [done|]. destruct w; [done|]. simpl in Hw. lia.
Qed.

Lemma extract_good i token i' token' :
  good i = true -> extract i token = (i', token') ->
  pending i' < pending i /\
  (failbit i' = false \/ eofbit i' = true) /\
  (failbit i' = true -> token' = token) /\
  (failbit i' = false -> is_empty token' = false).
Proof.
  unfold extract, good, pending. intros Hg E. rewrite Hg in E.
  destruct (eofbit i); [done|].
  destruct (is_empty (skip_ws (rest i))) eqn:Hs.
  - inversion E; subst; simpl. repeat split; auto with lia.
  - destruct (read_word (skip_ws (rest i))) as [w r] eqn:Hr.
    inversion E; subst; simpl.
    destruct (read_word_skip_ws _ _ _ Hs Hr) as [Hw Hlen].
    repeat split; auto; [|done]. destruct (is_empty r); lia.
Qed.

Lemma extract_not_good i token :
  good i = false ->
  extract i token = ({| rest := rest i; eofbit := eofbit i; failbit := true |}, token).
Proof. unfold extract. by intros ->. Qed.

Lemma getline_scan_length n s b r e f :
  getline_scan n s = (b, r, e, f) -> String.length r <= String.length s.
Proof.
  revert n b r e f; induction s as [|c s IH]; simpl; intros n b r e f E.
  - inversion E; subst. simpl. lia.
  - destruct (Ascii.eqb c "010"); [inversion E; subst; lia|].
    destruct n; [inversion E; subst; simpl; lia|].
    destruct (getline_scan n s) as [[[b' r'] e'] f'] eqn:E'.
    inversion E; subst. specialize (IH _ _ _ _ _ E'). lia.
Qed.

Lemma getline_rest_length i size i' b :
  getline i size = (i', b) -> String.length (rest i') <= String.length (rest i).
Proof.
  unfold getline. destruct (good i).
  - destruct (getline_scan (size - 1) (rest i)) as [[[b' r] e] f] eqn:E.
    intros [= <- <-]. simpl. by eapply getline_scan_length.
  - intros [= <- <-]. simpl. lia.
Qed.

Lemma getline_eofbit_mono i size i' b :
  getline i size = (i', b) -> eofbit i = true -> eofbit i' = true.
Proof.
  unfold getline, good. intros E He. rewrite He in E. simpl in E.
  by inversion E; subst.
Qed.

Lemma getline_pending i size i' b :
  getline i size = (i', b) -> pending i' <= pending i.
Proof.
  intros E. unfold pending.
  destruct (eofbit i) eqn:He.
  - by rewrite (getline_eofbit_mono _ _ _ _ E He).
  - pose proof (getline_rest_length _ _ _ _ E). destruct (eofbit i'); lia.
Qed.

(** ** The inner loop of the [Tape:] branch *)

Lemma bind_names_names fuel parts token a m :
  bind_names fuel parts token a m
  = (fun ks => bind_all ks a m) <$> names fuel parts token.
Proof.
  revert parts token m; induction fuel as [|fuel IH]; intros parts token m;
    simpl; [done|].
  destruct (eofbit parts); [done|].
  destruct (extract parts token) as [parts' token'].
  rewrite IH. by destruct (names fuel parts' token').
Qed.

Lemma names_total fuel parts token :
  (failbit parts = true -> eofbit parts = true) ->
  pending parts < fuel -> is_Some (names fuel parts token).
Proof.
  revert parts token; induction fuel as [|fuel IH]; intros parts token Hf Hp;
    [lia|]. simpl.
  destruct (eofbit parts) eqn:He; [by eexists|].
  destruct (extract parts token) as [parts' token'] eqn:E.
  assert (good parts = true) as Hg.
  { unfold good. rewrite He. destruct (failbit parts); [by discriminate Hf|done]. }
  destruct (extract_good _ _ _ _ Hg E) as (Hlt & Hbits & _).
  destruct (IH parts' token') as [ks ->]; [|lia|by eexists].
  intros Hf'. by destruct Hbits as [Hb|Hb]; [congruence|].
Qed.

Lemma Tape_names_eq buffer :
  names (S (S (String.length buffer))) (open buffer) EmptyString
  = Some (Tape_names buffer).
Proof.
  unfold Tape_names.
  destruct (names_total (S (S (String.length buffer))) (open buffer) EmptyString)
    as [ks ->]; [done|unfold pending; simpl; lia|done].
Qed.

Lemma bind_names_Tape_names buffer a m :
  bind_names (S (S (String.length buffer))) (open buffer) EmptyString a m
  = Some (bind_all (Tape_names buffer) a m).
Proof. by rewrite bind_names_names, Tape_names_eq. Qed.

Lemma bind_all_lookup_elem ks a m k :
  k ∈ ks -> bind_all ks a m !! k = Some a.
Proof.
  unfold bind_all. revert m. induction ks as [|k' ks IH] using rev_ind;
    intros m Hk; [by apply elem_of_nil in Hk|].
  rewrite foldl_app. simpl. destruct (decide (k' = k)) as [->|Hne].
  - apply lookup_insert_eq.
  - rewrite lookup_insert_ne by done. apply IH.
    apply elem_of_app in Hk as [Hk|Hk]; [done|].
    apply list_elem_of_singleton in Hk. congruence.
Qed.

Lemma bind_all_lookup_other ks a m k :
  k ∉ ks -> bind_all ks a m !! k = m !! k.
Proof.
  unfold bind_all. revert m. induction ks as [|k' ks IH]; intros m Hk; [done|].
  simpl. rewrite IH, lookup_insert_ne; [done| |]; set_solver.
Qed.

Lemma bind_all_lookup ks a m k b :
  bind_all ks a m !! k = Some b -> b = a \/ m !! k = Some b.
Proof.
  destruct (decide (k ∈ ks)) as [Hk|Hk].
  - rewrite bind_all_lookup_elem by done. intros [= <-]. by left.
  - rewrite bind_all_lookup_other by done. by right.
Qed.

(** ** One directive *)

Section Directive.
Context `{Libc}.

Lemma directive_Tape cfg buffer s :
  directive cfg "Tape:" buffer s
  = Some (Next (set_result
       (Some (mkConfig (board_origin cfg)
                (bind_all (Tape_names buffer) (length (heap s))
                   (tape_for_component cfg))))
       (set_current_tape (Some (length (heap s)))
          (set_heap (heap s ++ [Tape_new]) s)))).
Proof.
  unfold directive. by rewrite bind_names_Tape_names.
Qed.

(** A line whose first token is [angle:] matches no branch of the chain:
    the guard of the branch that calls [SetAngle] compares with
    ["spacing:"], which the branch before it has already taken. *)
Lemma directive_angle cfg buffer s :
  directive cfg "angle:" buffer s = Some (Next s).
Proof. reflexivity. Qed.

Lemma directive_total cfg token buffer s :
  is_Some (directive cfg token buffer s).
Proof.
  unfold directive.
  repeat (case_match; try by eexists).
  by rewrite bind_names_Tape_names in *.
Qed.

(** What every directive other than [Tape:] leaves alone. *)
Lemma directive_not_Tape cfg token buffer s f :
  token <> "Tape:" -> result s = Some cfg ->
  directive cfg token buffer s = Some f ->
  length (heap (flow_state f)) = length (heap s)
  /\ (forall cfg', result (flow_state f) = Some cfg' ->
        tape_for_component cfg' = tape_for_component cfg).
Proof.
  intros Hne Hr. unfold directive.
  destruct (String.eqb_spec token "Tape:") as [|_]; [done|].
  unfold reset_if.
  repeat (case_match; simplify_eq/=; try by rewrite ?length_alter);
    intros; simplify_eq/=; rewrite ?length_alter;
    (split; [done|]); intros; by simplify_eq/=.
Qed.

End Directive.

Section Directive_frame.
Context `{Libc}.

Lemma directive_in cfg token buffer s f :
  directive cfg token buffer s = Some f -> in_ (flow_state f) = in_ s.
Proof.
  destruct (String.eqb_spec token "Tape:") as [->|Hne].
  - rewrite directive_Tape. by intros [= <-].
  - unfold directive, reset_if. rewrite (proj2 (String.eqb_neq _ _) Hne).
    repeat (case_match; simplify_eq/=; try done); intros; by simplify_eq/=.
Qed.

Lemma directive_Break cfg token buffer s s' :
  directive cfg token buffer s = Some (Break s') -> result s' = None.
Proof.
  destruct (String.eqb_spec token "Tape:") as [->|Hne].
  - by rewrite directive_Tape.
  - unfold directive, reset_if. rewrite (proj2 (String.eqb_neq _ _) Hne).
    repeat (case_match; simplify_eq/=; try done); intros; by simplify_eq/=.
Qed.

Lemma pointers_valid_app m h h' :
  pointers_valid m h -> pointers_valid m (h ++ h').
Proof. intros Hv k a Hk. rewrite length_app. specialize (Hv k a Hk). lia. Qed.

Lemma pointers_valid_length m h h' :
  length h = length h' -> pointers_valid m h -> pointers_valid m h'.
Proof. intros Hl Hv k a Hk. rewrite <- Hl. by apply (Hv k). Qed.

Lemma directive_valid cfg token buffer s f :
  result s = Some cfg -> locals_valid s ->
  directive cfg token buffer s = Some f -> locals_valid (flow_state f).
Proof.
  intros Hr [Hm Hc]. specialize (Hm _ Hr).
  destruct (decide (token = "Tape:")) as [->|Hne].
  - rewrite directive_Tape. intros [= <-]. split; simpl.
    + intros cfg' [= <-] k a; simpl. rewrite length_app; simpl.
      intros [->|Hk]%bind_all_lookup; [lia|]. specialize (Hm k a Hk). lia.
    + intros a [= <-]. rewrite length_app; simpl. lia.
  - intros Hd. destruct (directive_not_Tape _ _ _ _ _ Hne Hr Hd) as [Hl Hmap].
    split.
    + intros cfg' Hr'. rewrite (Hmap _ Hr').
      by eapply pointers_valid_length.
    + rewrite Hl. revert Hd. unfold directive, reset_if.
      rewrite (proj2 (String.eqb_neq _ _) Hne).
      repeat (case_match; simplify_eq/=; try done); intros; simplify_eq/=;
        eauto; done.
Qed.

End Directive_frame.

(** ** The loop *)

Section Loop.
Context `{Libc}.

Lemma read_line_pending i i' token buffer :
  good i = true -> read_line i = (i', token, buffer) -> pending i' < pending i.
Proof.
  unfold read_line. intros Hg.
  destruct (extract i EmptyString) as [in1 token'] eqn:E1.
  destruct (getline in1 1024) as [in2 raw] eqn:E2. intros [= <- <- <-].
  destruct (extract_good _ _ _ _ Hg E1) as [Hlt _].
  pose proof (getline_pending _ _ _ _ E2). lia.
Qed.

(** Once [failbit] is set without [eofbit] nothing is read any more: the
    token and the buffer are empty and the stream stays as it is. *)
Lemma read_line_stuck i :
  failbit i = true -> read_line i = (i, EmptyString, EmptyString).
Proof.
  intros Hf. unfold read_line.
  rewrite extract_not_good by (unfold good; rewrite Hf; apply andb_false_r).
  unfold getline, good. simpl. rewrite andb_false_r.
  destruct i; simpl in *. by subst.
Qed.

Lemma set_in_same s : set_in (in_ s) s = s.
Proof. by destruct s. Qed.

Lemma loop_body_total cfg s : is_Some (loop_body cfg s).
Proof.
  unfold loop_body. destruct (read_line (in_ s)) as [[in2 token] buffer].
  apply directive_total.
Qed.

Lemma loop_body_valid cfg s f :
  result s = Some cfg -> locals_valid s ->
  loop_body cfg s = Some f -> locals_valid (flow_state f).
Proof.
  unfold loop_body. destruct (read_line (in_ s)) as [[in2 token] buffer].
  intros Hr Hv. apply directive_valid; [done|].
  destruct s, Hv; by split.
Qed.

Lemma loop_body_pending cfg s f :
  good (in_ s) = true -> loop_body cfg s = Some f ->
  pending (in_ (flow_state f)) < pending (in_ s).
Proof.
  unfold loop_body.
  destruct (read_line (in_ s)) as [[in2 token] buffer] eqn:E.
  intros Hg Hd. rewrite (directive_in _ _ _ _ _ Hd). simpl.
  by eapply read_line_pending.
Qed.

(** A stream with [failbit] but not [eofbit] makes the loop spin: every
    pass finds an empty token and continues in the same state. *)
Lemma parse_loop_stuck fuel s cfg :
  result s = Some cfg -> eofbit (in_ s) = false -> failbit (in_ s) = true ->
  parse_loop fuel s = None.
Proof.
  intros Hr He Hf. induction fuel as [|fuel IH]; [done|].
  simpl. rewrite Hr, He. unfold loop_body.
  rewrite read_line_stuck by done. by rewrite set_in_same.
Qed.

Lemma parse_loop_result_None fuel s :
  result s = None -> parse_loop (S fuel) s = Some s.
Proof. simpl. by intros ->. Qed.

(** If the loop ends at all, it ends within [pending] passes. *)
Lemma parse_loop_fuel_enough fuel s r :
  parse_loop fuel s = Some r ->
  forall fuel', pending (in_ s) < fuel' -> parse_loop fuel' s = Some r.
Proof.
  revert s; induction fuel as [|fuel IH]; intros s; [done|].
  intros Hp [|fuel'] Hlt; [lia|]. simpl in *.
  destruct (result s) as [cfg|] eqn:Hr; [|done].
  destruct (eofbit (in_ s)) eqn:He; [done|].
  destruct (failbit (in_ s)) eqn:Hf.
  { pose proof (parse_loop_stuck (S fuel) s cfg Hr He Hf) as Hs.
    simpl in Hs. rewrite Hr, He in Hs. congruence. }
  destruct (loop_body cfg s) as [[s'|s']|] eqn:Hb; [|done..].
  apply IH; [done|].
  assert (good (in_ s) = true) as Hg by (unfold good; by rewrite He, Hf).
  pose proof (loop_body_pending _ _ _ Hg Hb). simpl in *. lia.
Qed.

Lemma parse_loop_valid fuel s final :
  locals_valid s -> parse_loop fuel s = Some final -> locals_valid final.
Proof.
  revert s; induction fuel as [|fuel IH]; intros s Hv; [done|]. simpl.
  destruct (result s) as [cfg|] eqn:Hr; [|by intros [= <-]].
  destruct (eofbit (in_ s)); [by intros [= <-]|].
  destruct (loop_body cfg s) as [[s'|s']|] eqn:Hb; [| |done].
  - apply IH. by apply (loop_body_valid _ _ _ Hr Hv Hb).
  - intros [= <-]. by apply (loop_body_valid _ _ _ Hr Hv Hb).
Qed.

(** Once [result] is reset the loop is left and [NULL] is returned. *)
Lemma parse_loop_failed fuel s final :
  result s = None -> parse_loop fuel s = Some final -> result final = None.
Proof. destruct fuel; [done|]. simpl. intros Hr. rewrite Hr. by intros [= <-]. Qed.

(** The key-to-tape map of a configuration that is returned, read off
    the lines of the file. *)
Lemma parse_loop_binding fuel s final cfg cfgf k :
  parse_loop fuel s = Some final ->
  result s = Some cfg -> result final = Some cfgf ->
  tape_for_component cfgf !! k
  = binding k (lines fuel (in_ s)) (length (heap s))
      (tape_for_component cfg !! k)
  /\ length (heap final) = length (heap s) + count_Tape (lines fuel (in_ s)).
Proof.
  revert s cfg; induction fuel as [|fuel IH]; intros s cfg; [done|]. simpl.
  intros Hp Hr Hf. rewrite Hr in Hp.
  destruct (eofbit (in_ s)) eqn:He.
  { simplify_eq. unfold count_Tape. simpl. split; [congruence|lia]. }
  unfold loop_body in Hp.
  destruct (read_line (in_ s)) as [[in2 token] buffer] eqn:El.
  destruct (directive cfg token buffer (set_in in2 s)) as [[s'|s']|] eqn:Hd;
    [| |done].
  2:{ simplify_eq. apply directive_Break in Hd. congruence. }
  pose proof (directive_in _ _ _ _ _ Hd) as Hin. simpl in Hin.
  destruct (result s') as [cfg'|] eqn:Hr'.
  2:{ pose proof (parse_loop_failed _ _ _ Hr' Hp). congruence. }
  destruct (IH _ _ Hp Hr' Hf) as [IHm IHl]. rewrite Hin in IHm, IHl.
  simpl. unfold count_Tape in *. rewrite filter_cons. simpl.
  destruct (decide (token = "Tape:")) as [->|Hne].
  - rewrite directive_Tape in Hd. injection Hd as Hd.
    assert (heap s' = (heap s ++ [Tape_new])%list) as Hh by (by rewrite <- Hd).
    rewrite <- Hd in Hr'. simpl in Hr'. injection Hr' as <-.
    rewrite Hh, length_app in IHm, IHl. simpl in *.
    replace (length (heap s) + 1) with (S (length (heap s))) in * by lia.
    split; [|lia]. rewrite IHm. f_equal.
    destruct (decide (k ∈ Tape_names buffer)).
    + by apply bind_all_lookup_elem.
    + by apply bind_all_lookup_other.
  - assert (result (set_in in2 s) = Some cfg) as Hr2 by (by destruct s).
    destruct (directive_not_Tape _ _ _ _ _ Hne Hr2 Hd) as [Hl Hm].
    simpl in Hl, Hm. rewrite (Hm _ Hr') in IHm. rewrite Hl in IHm, IHl.
    by destruct s.
Qed.

End Loop.

(** ** ParseConfig as a whole *)

Lemma binding_quiet k post n cur :
  (forall buffer, ("Tape:", buffer) ∈ post -> k ∉ Tape_names buffer) ->
  binding k post n cur = cur.
Proof.
  revert n cur; induction post as [|[token buffer] post IH]; intros n cur Hq;
    [done|]. simpl.
  destruct (decide (token = "Tape:")) as [->|Hne].
  - rewrite decide_False by (apply Hq; left).
    apply IH. intros b Hb. apply Hq. by right.
  - apply IH. intros b Hb. apply Hq. by right.
Qed.

(** The key resolves to the tape of the last [Tape:] line that names it. *)
Lemma binding_last k pre buffer post n cur :
  k ∈ Tape_names buffer ->
  (forall buffer', ("Tape:", buffer') ∈ post -> k ∉ Tape_names buffer') ->
  binding k (pre ++ ("Tape:", buffer) :: post) n cur
  = Some (n + count_Tape pre).
Proof.
  intros Hk Hq. revert n cur.
  induction pre as [|[token b] pre IH]; intros n cur; simpl.
  - rewrite decide_True by done.
    rewrite binding_quiet by done. unfold count_Tape. simpl. f_equal. lia.
  - unfold count_Tape in *. rewrite filter_cons. simpl.
    destruct (decide (token = "Tape:")); rewrite IH; simpl; f_equal; lia.
Qed.

Section ParseConfig_facts.
Context `{Libc}.

(** [ParseConfig] gives a result whenever some amount of fuel does: it is
    [None] only for a file on which the loop of the source does not end. *)
Lemma ParseConfig_complete fuel file p :
  ParseConfig_fuel fuel file = Some p -> ParseConfig file = Some p.
Proof.
  unfold ParseConfig, ParseConfig_fuel.
  destruct (parse_loop fuel (ParseConfig_init file)) as [s|] eqn:E; [|done].
  intros [= <-].
  rewrite (parse_loop_fuel_enough _ _ _ E); [done|].
  unfold pending. simpl. lia.
Qed.

Lemma ParseConfig_init_valid file : locals_valid (ParseConfig_init file).
Proof. split; simpl; [|done]. by intros cfg [= <-] k a. Qed.

(** Every pointer of a returned configuration points to a tape. *)
Lemma ParseConfig_valid file p cfg :
  ParseConfig file = Some p -> config_ptr p = Some cfg ->
  pointers_valid (tape_for_component cfg) (tapes p).
Proof.
  unfold ParseConfig, ParseConfig_fuel.
  destruct (parse_loop _ _) as [s|] eqn:E; [|done]. intros [= <-]; simpl.
  intros Hr.
  by apply (parse_loop_valid _ _ _ (ParseConfig_init_valid file) E).
Qed.

Lemma ParseConfig_binding file p cfg k :
  ParseConfig file = Some p -> config_ptr p = Some cfg ->
  tape_for_component cfg !! k = binding k (file_lines file) 0 None
  /\ length (tapes p) = count_Tape (file_lines file).
Proof.
  unfold ParseConfig, ParseConfig_fuel.
  destruct (parse_loop _ _) as [s|] eqn:E; [|done]. intros [= <-]; simpl.
  intros Hr.
  by destruct (parse_loop_binding _ _ _ _ _ k E eq_refl Hr).
Qed.

End ParseConfig_facts.

(** ** Termination *)

Lemma within_mono n n' s : n <= n' -> within n s = true -> within n' s = true.
Proof.
  revert n n'; induction s as [|c s IH]; intros n n' Hle; simpl; [done|].
  destruct (Ascii.eqb c "010"); [done|].
  destruct n as [|n]; [done|]. destruct n' as [|n']; [lia|].
  apply IH. lia.
Qed.

Lemma within_tail c s : within 1023 (String c s) = true -> within 1023 s = true.
Proof.
  change (within 1023 (String c s))
    with (if Ascii.eqb c "010" then within 1023 s else within 1022 s).
  destruct (Ascii.eqb c "010"); [done|]. apply within_mono. lia.
Qed.

Lemma within_skip_ws s : within 1023 s = true -> within 1023 (skip_ws s) = true.
Proof.
  induction s as [|c s IH]; [done|]. intros Hw. simpl skip_ws.
  destruct (isspace c); [|done]. apply IH. by eapply within_tail.
Qed.

Lemma within_read_word s w r :
  read_word s = (w, r) -> within 1023 s = true -> within 1023 r = true.
Proof.
  revert w r; induction s as [|c s IH]; intros w r; simpl read_word.
  - by intros [= <- <-].
  - destruct (isspace c); [by intros [= <- <-]|].
    destruct (read_word s) as [w' r'] eqn:E. intros [= <- <-] Hw.
    eapply IH; [done|]. by eapply within_tail.
Qed.

Lemma within_getline_scan n s b r e f :
  getline_scan n s = (b, r, e, f) -> within n s = true ->
  f = false /\ within 1023 r = true.
Proof.
  revert n b r e f; induction s as [|c s IH]; intros n b r e f; simpl.
  - by intros [= <- <- <- <-].
  - destruct (Ascii.eqb c "010"); [by intros [= <- <- <- <-]|].
    destruct n as [|n]; [done|].
    destruct (getline_scan n s) as [[[b' r'] e'] f'] eqn:E.
    intros [= <- <- <- <-]. by eapply IH.
Qed.

(** On a stream whose lines are short the loop never sets [failbit]
    without [eofbit]. *)
Lemma read_line_short i i' token buffer :
  good i = true -> within 1023 (rest i) = true ->
  read_line i = (i', token, buffer) ->
  within 1023 (rest i') = true /\ (failbit i' = true -> eofbit i' = true).
Proof.
  unfold read_line, extract. intros Hg Hw. rewrite Hg.
  destruct (is_empty (skip_ws (rest i))) eqn:Hs.
  { unfold getline, good. simpl. by intros [= <- <- <-]. }
  destruct (read_word (skip_ws (rest i))) as [w r] eqn:Hr.
  pose proof (within_read_word _ _ _ Hr (within_skip_ws _ Hw)) as Hwr.
  unfold getline, good. cbn [rest eofbit failbit].
  destruct r as [|c r]; cbn [is_empty negb andb]; [by intros [= <- <- <-]|].
  change (1024 - 1) with 1023.
  destruct (getline_scan 1023 (String c r)) as [[[b' r'] e'] f'] eqn:Eg.
  intros [= <- <- <-]. cbn [rest eofbit failbit is_empty].
  destruct (within_getline_scan _ _ _ _ _ _ Eg Hwr) as [-> Hw'].
  by split.
Qed.

Section Termination.
Context `{Libc}.

Lemma parse_loop_terminates fuel s :
  within 1023 (rest (in_ s)) = true ->
  (failbit (in_ s) = true -> eofbit (in_ s) = true) ->
  pending (in_ s) < fuel -> is_Some (parse_loop fuel s).
Proof.
  revert s; induction fuel as [|fuel IH]; intros s Hw Hf Hp; [lia|]. simpl.
  destruct (result s) as [cfg|] eqn:Hr; [|by eexists].
  destruct (eofbit (in_ s)) eqn:He; [by eexists|].
  assert (good (in_ s) = true) as Hg.
  { unfold good. rewrite He. by destruct (failbit (in_ s)); [discriminate Hf|]. }
  destruct (loop_body_total cfg s) as [f Hb]. rewrite Hb.
  destruct f as [s'|s']; [|by eexists].
  pose proof (loop_body_pending _ _ _ Hg Hb) as Hlt. simpl in Hlt.
  unfold loop_body in Hb.
  destruct (read_line (in_ s)) as [[in2 token] buffer] eqn:El.
  pose proof (directive_in _ _ _ _ _ Hb) as Hin. simpl in Hin.
  destruct (read_line_short _ _ _ _ Hg Hw El) as [Hw' Hf'].
  subst in2. apply IH; [done|done|lia].
Qed.

(** C++ streams apart, [ParseConfig] returns for every file whose lines
    have at most 1023 characters. (A longer line sets [failbit] in
    [getline]; the loop then spins, see [parse_loop_stuck].) *)
Lemma ParseConfig_terminates file :
  short_lines file -> is_Some (ParseConfig file).
Proof.
  intros Hs. unfold ParseConfig, ParseConfig_fuel.
  destruct (parse_loop_terminates (S (S (String.length file)))
              (ParseConfig_init file)) as [s ->]; simpl; try done.
  unfold pending. simpl. lia.
Qed.

End Termination.

(** A line that does not fit the buffer: [getline] sets [failbit], the
    line is still processed (with the name cut short), and after that the
    loop never ends, whatever the fuel. *)
Example example_long_line_hangs fuel :
  ParseConfig_fuel fuel example_long_line = None.
Proof.
  assert (match loop_body Config_new (ParseConfig_init example_long_line) with
          | Some (Next s') =>
              match result s' with Some _ => true | None => false end
              && negb (eofbit (in_ s')) && failbit (in_ s')
          | _ => false
          end = true) as Hb by (vm_compute; reflexivity).
  unfold ParseConfig_fuel. destruct fuel as [|fuel]; [done|].
  cbn [parse_loop ParseConfig_init result in_ eofbit open].
  destruct (loop_body _ _) as [[s'|]|]; [|done..].
  destruct (result s') as [cfg'|] eqn:Hr; [|done].
  destruct (eofbit (in_ s')) eqn:He; [done|].
  destruct (failbit (in_ s')) eqn:Hf; [|done].
  by rewrite (parse_loop_stuck _ _ _ Hr He Hf).
Qed.

(** ** The generator *)

Lemma PrintPart_config part m m' :
  PrintPart part m = Some m' ->
  config_ m' = config_ m /\ length (tape_heap m') = length (tape_heap m).
Proof.
  unfold PrintPart.
  destruct (tape_for_component (config_ m) !! key_of part) as [a|];
    [|by intros [= <-]].
  destruct (tape_heap m !! a) as [tape|]; [|done]. simpl.
  destruct (GetNextPos tape) as [[[[px py] pz]|] tape'];
    intros [= <-]; simpl; by rewrite ?length_insert.
Qed.

Lemma PrintPart_valid part m m' :
  machine_valid m -> PrintPart part m = Some m' -> machine_valid m'.
Proof.
  intros Hv Hp. destruct (PrintPart_config _ _ _ Hp) as [Hc Hl].
  unfold machine_valid. rewrite Hc. by eapply pointers_valid_length.
Qed.

(** On a machine whose pointers are valid [PrintPart] is defined. *)
Lemma PrintPart_defined part m :
  machine_valid m -> is_Some (PrintPart part m).
Proof.
  intros Hv. unfold PrintPart.
  destruct (tape_for_component (config_ m) !! key_of part) as [a|] eqn:Ha;
    [|by eexists].
  destruct (lookup_lt_is_Some_2 (tape_heap m) a (Hv _ _ Ha)) as [tape ->].
  simpl. destruct (GetNextPos tape) as [[[[px py] pz]|] tape']; by eexists.
Qed.

Lemma PrintParts_defined parts m :
  machine_valid m -> is_Some (PrintParts parts m).
Proof.
  revert m; induction parts as [|part parts IH]; intros m Hv; [by eexists|].
  simpl. destruct (PrintPart_defined part m Hv) as [m' Hm']. rewrite Hm'.
  simpl. apply IH. by eapply PrintPart_valid.
Qed.

Lemma Init_valid m : machine_valid m -> machine_valid (Init m).
Proof. done. Qed.

(** A machine that the constructor produced has valid pointers, so the
    generator never dereferences a pointer to no tape. *)
Lemma GCodePickNPlace_new_valid `{Libc} file m :
  GCodePickNPlace_new file = Some (Constructed m) -> machine_valid m.
Proof.
  unfold GCodePickNPlace_new.
  destruct (ParseConfig file) as [p|] eqn:E; [|done]. simpl.
  destruct (config_ptr p) as [cfg|] eqn:Ec; [|done]. intros [= <-].
  by apply (ParseConfig_valid _ _ _ E Ec).
Qed.

(** ** Rounding *)





(** ** fmod *)

Lemma Qtrunc_nonneg q : (0 <= q)%Q -> Qtrunc q = Qfloor q.
Proof.
  destruct q as [n d]. unfold Qle, Qtrunc. simpl. intros Hn.
  apply Z.quot_div_nonneg; lia.
Qed.

Lemma Qtrunc_opp q : Qtrunc (- q) = (- Qtrunc q)%Z.
Proof. destruct q as [n d]. unfold Qtrunc. simpl. by apply Z.quot_opp_l. Qed.

(** For a dividend that is not negative [fmod] is the remainder in
    [[0, 360)]. *)
Lemma fmod_nonneg x :
  (0 <= x)%Q -> (0 <= fmod x 360 /\ fmod x 360 < 360)%Q.
Proof.
  intros Hx. unfold fmod.
  assert (0 <= x / 360)%Q as Hq by (apply Qle_shift_div_l; [reflexivity|lra]).
  rewrite (Qtrunc_nonneg _ Hq).
  assert (x == (x / 360) * 360)%Q as Hx' by field.
  set (q := (x / 360)%Q) in *. clearbody q.
  pose proof (Qfloor_le q) as Hlo.
  pose proof (Qlt_floor q) as Hhi.
  rewrite inject_Z_plus in Hhi. change (inject_Z 1) with 1%Q in Hhi.
  set (f := inject_Z (Qfloor q)) in *. clearbody f.
  split; lra.
Qed.

(** [fmod] is odd in the dividend: the result has the sign of [x]. *)
Lemma fmod_opp x y : (fmod (- x) y == - fmod x y)%Q.
Proof.
  unfold fmod.
  assert (Qtrunc (- x / y) = (- Qtrunc (x / y))%Z) as ->.
  { rewrite <- Qtrunc_opp. destruct x as [n d], y as [[|n'|n'] d'];
      unfold Qtrunc; simpl; f_equal; lia. }
  rewrite inject_Z_opp. lra.
Qed.

Lemma fmod_nonpos x :
  (x <= 0)%Q -> (- 360 < fmod x 360 /\ fmod x 360 <= 0)%Q.
Proof.
  intros Hx. destruct (fmod_nonneg (- x)) as [Hlo Hhi]; [lra|].
  rewrite fmod_opp in Hlo, Hhi. split; lra.
Qed.

Lemma fmod_magnitude x : (- 360 < fmod x 360 /\ fmod x 360 < 360)%Q.
Proof.
  destruct (Qlt_le_dec x 0) as [Hx|Hx].
  - destruct (fmod_nonpos x) as [Hlo Hhi]; [lra|]. split; lra.
  - destruct (fmod_nonneg x Hx) as [Hlo Hhi]. split; lra.
Qed.

(** * The claims *)

(** ** Angle normalisation *)

Example pick_angle_370 : pick_angle 370 = 10%Q.
Proof. reflexivity. Qed.

Example place_angle_10_350 : place_angle 10 350 = 20%Q.
Proof. reflexivity. Qed.

(** C2, as stated, fails: [fmod] keeps the sign of its dividend. A reel
    orientation of -10 degrees gives the pick operand -10, and a target
    of 0 degrees on a reel at 400 degrees gives the place operand -40. *)
Lemma C2_negative_operands :
  pick_angle (-10) = (-10)%Q /\ ~ (0 <= pick_angle (-10))%Q /\
  place_angle 0 400 = (-40)%Q /\ ~ (0 <= place_angle 0 400)%Q.
Proof.
  split; [reflexivity|]. split; [by vm_compute|].
  split; [reflexivity|]. by vm_compute.
Qed.

(** C2 (amended). For every reel orientation that is not negative and
    every target angle with [target - orientation + 360] not negative, the
    pick operand [fmod(orientation, 360)] and the place operand
    [fmod(target - orientation + 360, 360)] are not negative and strictly
    less than 360, before they are multiplied by [ANGLE_FACTOR]. *)
Theorem C2_operands_in_range (orientation target : Q) :
  (0 <= orientation)%Q -> (0 <= target - orientation + 360)%Q ->
  (0 <= pick_angle orientation /\ pick_angle orientation < 360)%Q /\
  (0 <= place_angle target orientation
   /\ place_angle target orientation < 360)%Q.
Proof.
  intros Ho Ht. unfold pick_angle, place_angle.
  split; by apply fmod_nonneg.
Qed.

Lemma C2_operands_in_range_witness :
  (0 <= 350)%Q /\ (0 <= 10 - 350 + 360)%Q /\
  ((0 <= pick_angle 350 /\ pick_angle 350 < 360)%Q /\
   (0 <= place_angle 10 350 /\ place_angle 10 350 < 360)%Q).
Proof.
  split; [by vm_compute|]. split; [by vm_compute|].
  apply (C2_operands_in_range 350 10); by vm_compute.
Defined.

(** ** The feed allocator *)

(** C3. For a reel with origin [o], spacing [s], capacity [n] and cursor
    [c]: if [c < n], [GetNextPos] returns
    [(o.x + c*s.x, o.y + c*s.y, o.z)] and moves the cursor to [c+1]; if
    [c = n] it reports exhaustion and leaves the reel as it is. For
    origin (0,0,5), spacing (4,0) and capacity 3, four calls return
    (0,0,5), (4,0,5), (8,0,5) and exhaustion, and the cursor ends at 3. *)
Theorem C3_GetNextPos (ox oy oz dx dy a : Q) (n c : Z) :
  let t := mkTape (ox, oy, oz) (dx, dy) a n c in
  ((c < n)%Z ->
     GetNextPos t
     = (Some (ox + inject_Z c * dx, oy + inject_Z c * dy, oz)%Q,
        mkTape (ox, oy, oz) (dx, dy) a n (c + 1)))
  /\ (c = n -> GetNextPos t = (None, t))
  /\ GetNextPos_times 4 (mkTape (0, 0, 5)%Q (4, 0)%Q a 3 0)
     = ([Some (0, 0, 5)%Q; Some (4, 0, 5)%Q; Some (8, 0, 5)%Q; None],
        mkTape (0, 0, 5)%Q (4, 0)%Q a 3 3).
Proof.
  intros t. split; [|split].
  - intros Hlt. unfold GetNextPos, t. simpl.
    by rewrite (proj2 (Z.eqb_neq c n)) by lia.
  - intros ->. unfold GetNextPos, t. simpl. by rewrite Z.eqb_refl.
  - reflexivity.
Qed.

Lemma C3_GetNextPos_witness :
  ((1 < 3)%Z /\
   GetNextPos (mkTape (0, 0, 5)%Q (4, 0)%Q 90%Q 3 1)
   = (Some (0 + inject_Z 1 * 4, 0 + inject_Z 1 * 0, 5)%Q,
      mkTape (0, 0, 5)%Q (4, 0)%Q 90%Q 3 (1 + 1)))
  /\ (3%Z = 3%Z /\
      GetNextPos (mkTape (0, 0, 5)%Q (4, 0)%Q 90%Q 3 3)
      = (None, mkTape (0, 0, 5)%Q (4, 0)%Q 90%Q 3 3)).
Proof.
  split; (split; [done|]).
  - by apply (C3_GetNextPos 0 0 5 4 0 90 3 1).
  - by apply (C3_GetNextPos 0 0 5 4 0 90 3 3).
Defined.

(** ** The toolpath generator *)

(** What [PrintPart] does with a request whose tape has a slot left. *)
Lemma PrintPart_accepted part m a t t' px py pz :
  tape_for_component (config_ m) !! key_of part = Some a ->
  tape_heap m !! a = Some t ->
  GetNextPos t = (Some (px, py, pz), t') ->
  PrintPart part m
  = Some (mkMachine (config_ m) (<[a := t']> (tape_heap m))
            (stdout m ++
               [pick_gcode (print_name part) px py (fadd pz 10)
                  (ANGLE_FACTOR * pick_angle (angle t')) pz (fadd pz 10);
                place_gcode (print_name part)
                  (fadd (pos_x (pos part)) (pos_x (board_origin (config_ m))))
                  (fadd (pos_y (pos part)) (pos_y (board_origin (config_ m))))
                  (fadd pz 10)
                  (ANGLE_FACTOR * place_angle (part_angle part) (angle t'))
                  (dadd pz (-2)) (fadd pz 10)]%Q)
            (stderr m)).
Proof.
  intros Ha Ht Hg. unfold PrintPart. rewrite Ha, Ht. simpl. rewrite Hg.
  unfold printf, store_tape. simpl. by rewrite <- app_assoc.
Qed.

(** What [PrintPart] does with a request it skips. *)
Lemma PrintPart_no_tape part m :
  tape_for_component (config_ m) !! key_of part = None ->
  PrintPart part m
  = Some (fprintf_err ("No tape for '" ++ key_of part ++ "'" ++ nl) m).
Proof. intros Ha. unfold PrintPart. by rewrite Ha. Qed.

Lemma PrintPart_exhausted part m a t :
  tape_for_component (config_ m) !! key_of part = Some a ->
  tape_heap m !! a = Some t -> cursor t = capacity t ->
  PrintPart part m
  = Some (fprintf_err
            ("We are out of components for '" ++ key_of part ++ "'" ++ nl) m).
Proof.
  intros Ha Ht Hc. unfold PrintPart. rewrite Ha, Ht. simpl.
  unfold GetNextPos. rewrite Hc, Z.eqb_refl.
  unfold store_tape. rewrite list_insert_id by done. by destruct m.
Qed.


(** C9. [PrintPart] looks up [footprint + "@" + value]: a request is
    skipped with "No tape for" that string when the map has no entry
    under it, and is served by the tape bound to it otherwise. So two
    requests whose concatenations coincide are served by the same tape,
    on the same machine from the same slot and one after the other from
    successive slots, though their (footprint, value) pairs differ, as
    ("a@b", "c") and ("a", "b@c") do. *)
Theorem C9_key_concatenation (p1 p2 : Part) (m : machine) :
  (tape_for_component (config_ m) !! (footprint p1 ++ "@" ++ value p1) = None ->
   PrintPart p1 m
   = Some (fprintf_err
             ("No tape for '" ++ (footprint p1 ++ "@" ++ value p1) ++ "'" ++ nl)
             m) /\
   (footprint p1 ++ "@" ++ value p1 = footprint p2 ++ "@" ++ value p2 ->
    PrintPart p2 m = PrintPart p1 m)) /\
  (forall a t t' px py pz,
     tape_for_component (config_ m) !! (footprint p1 ++ "@" ++ value p1)
     = Some a ->
     tape_heap m !! a = Some t ->
     GetNextPos t = (Some (px, py, pz), t') ->
     exists m1 place1,
       PrintPart p1 m = Some m1 /\
       tape_heap m1 = <[a := t']> (tape_heap m) /\
       stdout m1
       = (stdout m ++
           [pick_gcode (print_name p1) px py (fadd pz Z_HOVERING)
              (ANGLE_FACTOR * pick_angle (angle t')) pz (fadd pz Z_HOVERING);
            place1])%list /\
       (footprint p1 ++ "@" ++ value p1 = footprint p2 ++ "@" ++ value p2 ->
        (exists m2 place2,
           PrintPart p2 m = Some m2 /\
           tape_heap m2 = <[a := t']> (tape_heap m) /\
           stdout m2
           = (stdout m ++
               [pick_gcode (print_name p2) px py (fadd pz Z_HOVERING)
                  (ANGLE_FACTOR * pick_angle (angle t')) pz
                  (fadd pz Z_HOVERING);
                place2])%list) /\
        (forall t'' qx qy qz,
           GetNextPos t' = (Some (qx, qy, qz), t'') ->
           exists m12 place2,
             PrintPart p2 m1 = Some m12 /\
             tape_heap m12 = <[a := t'']> (tape_heap m) /\
             stdout m12
             = (stdout m1 ++
                 [pick_gcode (print_name p2) qx qy (fadd qz Z_HOVERING)
                    (ANGLE_FACTOR * pick_angle (angle t'')) qz
                    (fadd qz Z_HOVERING);
                  place2])%list))) /\
  (footprint p1 = "a@b" -> value p1 = "c" ->
   footprint p2 = "a" -> value p2 = "b@c" ->
   (footprint p1, value p1) <> (footprint p2, value p2) /\
   footprint p1 ++ "@" ++ value p1 = footprint p2 ++ "@" ++ value p2).
Proof.
  change (footprint p1 ++ "@" ++ value p1) with (key_of p1).
  change (footprint p2 ++ "@" ++ value p2) with (key_of p2).
  split; [|split].
  - intros Hn. rewrite (PrintPart_no_tape _ _ Hn). split; [done|].
    intros Hk. rewrite Hk in Hn. rewrite (PrintPart_no_tape _ _ Hn).
    by rewrite Hk.
  - intros a t t' px py pz Ha Ht Hg.
    rewrite (PrintPart_accepted _ _ _ _ _ _ _ _ Ha Ht Hg).
    eexists _, _. split; [done|]. cbn [tape_heap stdout].
    split; [done|]. split; [done|].
    intros Hk. rewrite Hk in Ha. split.
    + rewrite (PrintPart_accepted _ _ _ _ _ _ _ _ Ha Ht Hg).
      eexists _, _. split; [done|]. by cbn [tape_heap stdout].
    + intros t'' qx qy qz Hg'.
      assert (a < length (tape_heap m)) as Hlt by by eapply lookup_lt_Some.
      rewrite (PrintPart_accepted p2 _ a t' t'' qx qy qz); cbn [config_ tape_heap];
        [|done|by apply list_lookup_insert_eq|done].
      eexists _, _. split; [done|]. cbn [tape_heap stdout].
      by rewrite list_insert_insert_eq.
  - intros Hf1 Hv1 Hf2 Hv2. unfold key_of.
    rewrite Hf1, Hv1, Hf2, Hv2. by split.
Qed.



Lemma C9_key_concatenation_witness :
  tape_for_component (config_ example_at_machine) !! "a@b@c" = Some 0
  /\ tape_heap example_at_machine !! 0
     = Some (mkTape (0, 0, 5)%Q (4, 0)%Q 90 3 0)
  /\ (footprint example_at_left, value example_at_left)
     <> (footprint example_at_right, value example_at_right)
  /\ exists m1 m12 place1 place2,
       PrintPart example_at_left example_at_machine = Some m1 /\
       PrintPart example_at_right m1 = Some m12 /\
       tape_heap m12 = [mkTape (0, 0, 5)%Q (4, 0)%Q 90 3 2] /\
       stdout m12
       = [pick_gcode "U1 (a@b@c)" 0 0 15 (ANGLE_FACTOR * 90) 5 15; place1;
          pick_gcode "U2 (a@b@c)" 4 0 15 (ANGLE_FACTOR * 90) 5 15; place2].
Proof.
  split; [reflexivity|]. split; [reflexivity|].
  destruct (C9_key_concatenation example_at_left example_at_right
              example_at_machine) as (_ & Hserved & Hex).
  destruct (Hex eq_refl eq_refl eq_refl eq_refl) as [Hne Hk].
  split; [exact Hne|].
  destruct (Hserved 0 (mkTape (0, 0, 5)%Q (4, 0)%Q 90 3 0)
              (mkTape (0, 0, 5)%Q (4, 0)%Q 90 3 1) 0%Q 0%Q 5%Q
              eq_refl eq_refl eq_refl)
    as (m1 & place1 & Hp1 & Hh1 & Hs1 & Hsame).
  destruct (Hsame Hk) as [_ Hnext].
  destruct (Hnext (mkTape (0, 0, 5)%Q (4, 0)%Q 90 3 2) 4%Q 0%Q 5%Q eq_refl)
    as (m12 & place2 & Hp2 & Hh2 & Hs2).
  exists m1, m12, place1, place2.
  split; [exact Hp1|]. split; [exact Hp2|]. split; [exact Hh2|].
  rewrite Hs2, Hs1. reflexivity.
Defined.

(** ** Skipped requests *)

(** [PrintPart] neither reads nor rewrites [stderr]: on machines that
    differ only there it does the same and appends the same messages. *)
Lemma PrintPart_same_but_stderr part m1 m2 :
  same_but_stderr m1 m2 ->
  match PrintPart part m1, PrintPart part m2 with
  | Some m1', Some m2' =>
      same_but_stderr m1' m2' /\
      exists tail, stderr m1' = (stderr m1 ++ tail)%list
                   /\ stderr m2' = (stderr m2 ++ tail)%list
  | None, None => True
  | _, _ => False
  end.
Proof.
  intros (Hc & Hh & Ho). unfold PrintPart. rewrite <- Hc, <- Hh.
  destruct (tape_for_component (config_ m1) !! key_of part) as [a|].
  2:{ split; [done|]. by eexists. }
  destruct (tape_heap m1 !! a) as [tape|]; simpl; [|done].
  destruct (GetNextPos tape) as [[[[px py] pz]|] tape']; simpl.
  - unfold same_but_stderr. simpl. rewrite Ho, Hc, Hh. split; [done|].
    exists []. by rewrite !app_nil_r.
  - unfold same_but_stderr. simpl. rewrite Ho, Hc, Hh. split; [done|].
    by eexists.
Qed.

Lemma PrintParts_same_but_stderr parts m1 m2 :
  same_but_stderr m1 m2 ->
  match PrintParts parts m1, PrintParts parts m2 with
  | Some m1', Some m2' =>
      same_but_stderr m1' m2' /\
      exists tail, stderr m1' = (stderr m1 ++ tail)%list
                   /\ stderr m2' = (stderr m2 ++ tail)%list
  | None, None => True
  | _, _ => False
  end.
Proof.
  revert m1 m2; induction parts as [|part parts IH]; intros m1 m2 Hs; simpl.
  { split; [done|]. exists []. by rewrite !app_nil_r. }
  pose proof (PrintPart_same_but_stderr part m1 m2 Hs) as Hp.
  destruct (PrintPart part m1) as [m1'|], (PrintPart part m2) as [m2'|];
    simpl; try done.
  destruct Hp as [Hs' (tail & Ht1 & Ht2)].
  specialize (IH m1' m2' Hs').
  destruct (PrintParts parts m1') as [m1''|], (PrintParts parts m2') as [m2''|];
    try done.
  destruct IH as [Hs'' (tail' & Ht1' & Ht2')]. split; [done|].
  exists (tail ++ tail')%list.
  rewrite Ht1', Ht2', Ht1, Ht2. by rewrite !app_assoc.
Qed.

(** C5. A request whose key has no tape, or whose tape is exhausted, puts
    exactly one diagnostic on [stderr] and nothing on [stdout], leaves
    the board origin, the map and every tape as they are, and does not
    disturb the requests after it: with or without the skipped request
    in front, they produce the same output and leave the same tapes. *)
Theorem C5_skipped_request (part : Part) (m : machine) :
  (tape_for_component (config_ m) !! key_of part = None \/
   exists a t, tape_for_component (config_ m) !! key_of part = Some a /\
               tape_heap m !! a = Some t /\ cursor t = capacity t) ->
  exists d m',
    (d = "No tape for '" ++ key_of part ++ "'" ++ nl \/
     d = "We are out of components for '" ++ key_of part ++ "'" ++ nl) /\
    PrintPart part m = Some m' /\
    stderr m' = (stderr m ++ [d])%list /\
    stdout m' = stdout m /\
    config_ m' = config_ m /\
    tape_heap m' = tape_heap m /\
    forall rest,
      match PrintParts rest m, PrintParts (part :: rest) m with
      | Some m1, Some m2 =>
          same_but_stderr m1 m2 /\
          exists tail, stderr m1 = (stderr m ++ tail)%list
                       /\ stderr m2 = (stderr m ++ d :: tail)%list
      | None, None => True
      | _, _ => False
      end.
Proof.
  intros Hskip.
  assert (exists d,
    (d = "No tape for '" ++ key_of part ++ "'" ++ nl \/
     d = "We are out of components for '" ++ key_of part ++ "'" ++ nl) /\
    PrintPart part m = Some (fprintf_err d m)) as (d & Hd & Hp).
  { destruct Hskip as [Hn|(a & t & Ha & Ht & Hc)].
    - eexists. split; [by left|]. by apply PrintPart_no_tape.
    - eexists. split; [by right|]. by eapply PrintPart_exhausted. }
  exists d, (fprintf_err d m). repeat (split; [done|]).
  intros rest. simpl. rewrite Hp. simpl.
  assert (same_but_stderr m (fprintf_err d m)) as Hs by done.
  pose proof (PrintParts_same_but_stderr rest _ _ Hs) as Hr.
  destruct (PrintParts rest m) as [m1|],
           (PrintParts rest (fprintf_err d m)) as [m2|]; try done.
  destruct Hr as [Hs' (tail & Ht1 & Ht2)]. split; [done|].
  exists tail. split; [done|]. rewrite Ht2. simpl. by rewrite <- app_assoc.
Qed.

Lemma C5_skipped_request_witness :
  (tape_for_component (config_ example_machine) !! key_of example_unknown = None
   /\ exists d m',
        PrintPart example_unknown example_machine = Some m' /\
        stderr m' = [d] /\ stdout m' = [] /\
        tape_heap m' = tape_heap example_machine)
  /\ (tape_for_component (config_ example_spent) !! key_of example_part = Some 0
      /\ tape_heap example_spent !! 0 = Some (mkTape (0, 0, 5)%Q (4, 0)%Q 90 3 3)
      /\ exists d m',
           PrintPart example_part example_spent = Some m' /\
           stderr m' = [d] /\ stdout m' = [] /\
           tape_heap m' = tape_heap example_spent).
Proof.
  split.
  - split; [reflexivity|].
    destruct (C5_skipped_request example_unknown example_machine
                (or_introl eq_refl))
      as (d & m' & _ & Hp & He & Ho & _ & Hh & _).
    exists d, m'. repeat split; assumption.
  - split; [reflexivity|]. split; [reflexivity|].
    destruct (C5_skipped_request example_part example_spent
                (or_intror (ex_intro _ 0 (ex_intro _ _
                   (conj eq_refl (conj eq_refl eq_refl))))))
      as (d & m' & _ & Hp & He & Ho & _ & Hh & _).
    exists d, m'. repeat split; assumption.
Defined.

(** ** The output stream *)

Lemma PrintPart_block part m m' :
  PrintPart part m = Some m' ->
  exists b, block_of part m b /\ stdout m' = (stdout m ++ b)%list.
Proof.
  unfold PrintPart.
  destruct (tape_for_component (config_ m) !! key_of part) as [a|] eqn:Ha.
  2:{ intros [= <-]. exists []. split; [|by rewrite app_nil_r].
      right. split; [|done]. intros (a & t & ? & ? & Ha' & _). congruence. }
  destruct (tape_heap m !! a) as [tape|] eqn:Ht; simpl; [|done].
  destruct (GetNextPos tape) as [[[[px py] pz]|] tape'] eqn:Hg; intros [= <-].
  - eexists. split; [|simpl; by rewrite <- app_assoc].
    left. split; [by eexists _, _, _, _|].
    by eexists _, _, _, _, _, _, _, _, _.
  - exists []. split; [|simpl; by rewrite app_nil_r].
    right. split; [|done]. intros (a' & t & ? & ? & Ha' & Ht' & Hg').
    congruence.
Qed.

Lemma PrintParts_blocks parts m m' :
  PrintParts parts m = Some m' ->
  exists blocks,
    blocks_of parts m blocks m' /\
    stdout m' = (stdout m ++ concat blocks)%list.
Proof.
  revert m; induction parts as [|part parts IH]; intros m; simpl.
  { intros [= <-]. exists []. split; [constructor|]. simpl. by rewrite app_nil_r. }
  destruct (PrintPart part m) as [m1|] eqn:Hp; simpl; [|done]. intros Hps.
  destruct (PrintPart_block _ _ _ Hp) as (b & Hb & Hs).
  destruct (IH _ Hps) as (blocks & Hbs & Hss).
  exists (b :: blocks). split; [by econstructor|].
  rewrite Hss, Hs. simpl. by rewrite app_assoc.
Qed.

(** C8. [stdout] receives the preamble once, then, request by request in
    the order given, the pick block of the request immediately followed
    by its place block if the request is accepted and nothing if it is
    skipped, then the closing block once. *)
Theorem C8_output_order (parts : list Part) (m : machine) :
  machine_valid m ->
  exists m1 blocks,
    Run parts m = Some (Finish m1) /\
    blocks_of parts (Init m) blocks m1 /\
    stdout (Finish m1)
    = (stdout m ++ gcode_preamble :: concat blocks ++ [gcode_finish])%list.
Proof.
  intros Hv. unfold Run.
  destruct (PrintParts_defined parts (Init m) (Init_valid m Hv)) as [m1 Hm1].
  rewrite Hm1. simpl.
  destruct (PrintParts_blocks _ _ _ Hm1) as (blocks & Hbs & Hs).
  exists m1, blocks. split; [done|]. split; [done|].
  simpl. rewrite Hs. simpl. by rewrite <- !app_assoc.
Qed.

Lemma example_machine_valid : machine_valid example_machine.
Proof.
  intros k a. simpl.
  intros [[_ <-]|[_ [[_ <-]|[_ Hk]]%lookup_insert_Some]]%lookup_insert_Some;
    simpl; [lia..|done].
Qed.

Lemma C8_output_order_witness :
  machine_valid example_machine /\
  exists m1 blocks,
    Run [example_part; example_unknown; example_alias] example_machine
    = Some (Finish m1) /\
    blocks_of [example_part; example_unknown; example_alias]
      (Init example_machine) blocks m1 /\
    stdout (Finish m1)
    = (gcode_preamble :: concat blocks ++ [gcode_finish])%list.
Proof.
  split; [exact example_machine_valid|].
  exact (C8_output_order [example_part; example_unknown; example_alias]
           example_machine example_machine_valid).
Defined.

Example example_run_stdout :
  stdout <$> Run [example_part; example_unknown; example_alias] example_machine
  = Some [gcode_preamble;
          pick_gcode "R1 (0805@1k)" 0 0 15 (ANGLE_FACTOR * 90) 5 15;
          place_gcode "R1 (0805@1k)" 105 205 15 (ANGLE_FACTOR * 280) 3 15;
          pick_gcode "R2 (0805@2k)" 4 0 15 (ANGLE_FACTOR * 90) 5 15;
          place_gcode "R2 (0805@2k)" 106 207 15 (ANGLE_FACTOR * 270) 3 15;
          gcode_finish].
Proof. reflexivity. Qed.

(** ** Tape: lines *)

Example Tape_names_two :
  Tape_names " 0805@1k 0805@2k" = ["0805@1k"; "0805@2k"].
Proof. reflexivity. Qed.

(** After the last name [eofbit] is only set by a read that hits the end:
    with trailing blanks the failed last read leaves [token] as it was and
    the last name is bound once more; on a line without names the empty
    key is bound. *)
Example Tape_names_trailing_blank : Tape_names " a b " = ["a"; "b"; "b"].
Proof. reflexivity. Qed.

Example Tape_names_none : Tape_names "" = [""].
Proof. reflexivity. Qed.

Lemma ParseConfig_ok_Some `{Libc} file p cfg :
  ParseConfig_ok file = Some (p, cfg) <->
  ParseConfig file = Some p /\ config_ptr p = Some cfg.
Proof.
  unfold ParseConfig_ok. split.
  - destruct (ParseConfig file) as [p'|]; simpl; [|done].
    destruct (config_ptr p') as [cfg'|] eqn:E; simpl; [|done].
    by intros [= <- <-].
  - intros [-> Hc]. simpl. by rewrite Hc.
Qed.

(** In a returned configuration the names of one [Tape:] line that no
    later [Tape:] line lists again all point to the tape of that line. *)
Lemma ParseConfig_last_Tape `{Libc} file p cfg pre buffer post k :
  ParseConfig file = Some p -> config_ptr p = Some cfg ->
  file_lines file = (pre ++ ("Tape:", buffer) :: post)%list ->
  k ∈ Tape_names buffer ->
  (forall buffer', ("Tape:", buffer') ∈ post -> k ∉ Tape_names buffer') ->
  tape_for_component cfg !! k = Some (count_Tape pre)
  /\ count_Tape pre < length (tapes p).
Proof.
  intros Hp Hc Hl Hk Hq.
  destruct (ParseConfig_binding _ _ _ k Hp Hc) as [Hb Hlen].
  rewrite Hl in Hb, Hlen. rewrite binding_last in Hb by done.
  rewrite Nat.add_0_l in Hb. split; [done|].
  rewrite Hlen. unfold count_Tape. rewrite filter_app, length_app, filter_cons.
  simpl. lia.
Qed.

(** C6. A [Tape:] line binds every name it lists to one and the same
    newly allocated tape; and when two keys point to the same tape, a
    request served through one of them advances the cursor of the tape
    that the other key points to. *)
Theorem C6_aliasing `{Libc} (cfg : Config) (buffer : string) (s : locals)
    (k1 k2 : string) :
  k1 ∈ Tape_names buffer -> k2 ∈ Tape_names buffer ->
  (exists s' cfg',
     directive cfg "Tape:" buffer s = Some (Next s') /\
     result s' = Some cfg' /\
     heap s' = (heap s ++ [Tape_new])%list /\
     tape_for_component cfg' !! k1 = Some (length (heap s)) /\
     tape_for_component cfg' !! k2 = Some (length (heap s)))
  /\ forall (m : machine) (a : addr) (t : Tape) (part : Part),
       tape_for_component (config_ m) !! k1 = Some a ->
       tape_for_component (config_ m) !! k2 = Some a ->
       tape_heap m !! a = Some t -> cursor t <> capacity t ->
       key_of part = k1 ->
       exists m' t',
         PrintPart part m = Some m' /\
         tape_for_component (config_ m') !! k2 = Some a /\
         tape_heap m' !! a = Some t' /\
         cursor t' = (cursor t + 1)%Z /\
         origin t' = origin t /\ spacing t' = spacing t /\
         capacity t' = capacity t.
Proof.
  intros Hk1 Hk2. split.
  - rewrite directive_Tape. eexists _, _. split; [done|]. simpl.
    split; [done|]. split; [done|]. split; by apply bind_all_lookup_elem.
  - intros m a t part Ha1 Ha2 Ht Hc <-.
    destruct (GetNextPos t) as [r t'] eqn:Hg.
    assert (exists px py pz, r = Some (px, py, pz) /\
              t' = mkTape (origin t) (spacing t) (angle t) (capacity t)
                     (cursor t + 1)) as (px & py & pz & -> & Ht').
    { revert Hg. unfold GetNextPos.
      rewrite (proj2 (Z.eqb_neq _ _) Hc).
      destruct (origin t) as [[ox oy] oz], (spacing t) as [dx dy].
      intros [= <- <-]. by eexists _, _, _. }
    rewrite (PrintPart_accepted _ _ _ _ _ _ _ _ Ha1 Ht Hg).
    eexists _, t'. split; [done|]. simpl. split; [done|].
    split; [apply list_lookup_insert_eq; by eapply lookup_lt_Some|].
    by rewrite Ht'.
Qed.

Lemma C6_aliasing_witness :
  "0805@1k" ∈ Tape_names " 0805@1k 0805@2k" /\
  "0805@2k" ∈ Tape_names " 0805@1k 0805@2k" /\
  tape_for_component (config_ example_machine) !! "0805@1k" = Some 0 /\
  tape_for_component (config_ example_machine) !! "0805@2k" = Some 0 /\
  exists m' t',
    PrintPart example_part example_machine = Some m' /\
    tape_for_component (config_ m') !! "0805@2k" = Some 0 /\
    tape_heap m' !! 0 = Some t' /\ cursor t' = 1%Z.
Proof.
  split; [solve_elem|]. split; [solve_elem|].
  split; [reflexivity|]. split; [reflexivity|].
  assert ("0805@1k" ∈ Tape_names " 0805@1k 0805@2k") as H1 by solve_elem.
  assert ("0805@2k" ∈ Tape_names " 0805@1k 0805@2k") as H2 by solve_elem.
  destruct (proj2 (C6_aliasing Config_new " 0805@1k 0805@2k"
                     (ParseConfig_init "") "0805@1k" "0805@2k" H1 H2)
              example_machine 0 (mkTape (0, 0, 5)%Q (4, 0)%Q 90 3 0)
              example_part eq_refl eq_refl eq_refl ltac:(done) eq_refl)
    as (m' & t' & Hp & Hk & Ht & Hc & _).
  exists m', t'. repeat split; assumption.
Defined.

(** C10. A [Tape:] line that lists a key bound by an earlier [Tape:] line
    does not reset [result] and writes no diagnostic: it rebinds the key
    to its own, new tape. In a returned configuration the key points to
    the tape of the last [Tape:] line of the file that lists it (tapes
    are allocated in the order of their [Tape:] lines, so the tape of a
    line has as address the number of [Tape:] lines before it). *)
Theorem C10_rebinding `{Libc} (file : string) (p : parsed) (cfg : Config)
    (pre post : list (string * string)) (buffer : string) (k : string) :
  ParseConfig file = Some p -> config_ptr p = Some cfg ->
  file_lines file = (pre ++ ("Tape:", buffer) :: post)%list ->
  k ∈ Tape_names buffer ->
  (forall buffer', ("Tape:", buffer') ∈ post -> k ∉ Tape_names buffer') ->
  (tape_for_component cfg !! k = Some (count_Tape pre)
   /\ count_Tape pre < length (tapes p))
  /\ forall (cfg0 : Config) (s0 : locals) (a0 : addr),
       pointers_valid (tape_for_component cfg0) (heap s0) ->
       tape_for_component cfg0 !! k = Some a0 ->
       exists s' cfg',
         directive cfg0 "Tape:" buffer s0 = Some (Next s') /\
         result s' = Some cfg' /\ cerr s' = cerr s0 /\
         tape_for_component cfg' !! k = Some (length (heap s0)) /\
         length (heap s0) <> a0.
Proof.
  intros Hp Hc Hl Hk Hq. split; [by eapply ParseConfig_last_Tape|].
  intros cfg0 s0 a0 Hv Ha0. rewrite directive_Tape.
  eexists _, _. split; [done|]. simpl. split; [done|]. split; [done|].
  split; [by apply bind_all_lookup_elem|].
  specialize (Hv _ _ Ha0). lia.
Qed.

Lemma C10_rebinding_witness :
  exists p cfg,
    ParseConfig (unlines ["Tape: a b"; "Tape: b c"]) = Some p /\
    config_ptr p = Some cfg /\
    file_lines (unlines ["Tape: a b"; "Tape: b c"])
    = ([("Tape:", " a b")] ++ ("Tape:", " b c") :: [("", "")])%list /\
    "b" ∈ Tape_names " b c" /\
    tape_for_component cfg !! "a" = Some 0 /\
    tape_for_component cfg !! "b" = Some 1 /\
    tape_for_component cfg !! "c" = Some 1 /\
    exists s' cfg',
      directive (mkConfig (mkPosition 0 0) (<["b" := 0]> ∅)) "Tape:" " b c"
        (set_heap [Tape_new] (ParseConfig_init ""))
      = Some (Next s') /\
      result s' = Some cfg' /\ cerr s' = [] /\
      tape_for_component cfg' !! "b" = Some 1.
Proof.
  assert (is_Some (ParseConfig_ok (unlines ["Tape: a b"; "Tape: b c"])))
    as [[p cfg] Hok] by (vm_compute; by eexists).
  apply ParseConfig_ok_Some in Hok as [Hp Hc].
  assert ("b" ∈ Tape_names " b c") as Hb by solve_elem.
  assert (forall b', ("Tape:", b') ∈ [("", "")] -> "b" ∉ Tape_names b') as Hq.
  { intros b' Hin. by apply list_elem_of_singleton in Hin. }
  destruct (C10_rebinding _ p cfg [("Tape:", " a b")] [("", "")] " b c" "b"
              Hp Hc eq_refl Hb Hq) as [[Hlast _] Hstep].
  exists p, cfg. split; [exact Hp|]. split; [exact Hc|].
  split; [reflexivity|]. split; [exact Hb|].
  split; [|split; [exact Hlast|split]].
  - assert ("a" ∈ Tape_names " a b") as Ha by solve_elem.
    refine (proj1 (ParseConfig_last_Tape _ p cfg [] " a b"
                     [("Tape:", " b c"); ("", "")] "a" Hp Hc eq_refl Ha _)).
    intros b' Hin Hn. apply elem_of_cons in Hin as [[= ->]|Hin].
    + apply (bool_decide_pack _) in Hn. by vm_compute in Hn.
    + by apply list_elem_of_singleton in Hin.
  - assert ("c" ∈ Tape_names " b c") as Hc' by solve_elem.
    refine (proj1 (ParseConfig_last_Tape _ p cfg [("Tape:", " a b")] " b c"
                     [("", "")] "c" Hp Hc eq_refl Hc' _)).
    intros b' Hin. by apply list_elem_of_singleton in Hin.
  - destruct (Hstep (mkConfig (mkPosition 0 0) (<["b" := 0]> ∅))
                (set_heap [Tape_new] (ParseConfig_init "")) 0)
      as (s' & cfg' & Hd & Hr & He & Hk & _).
    + intros k a. simpl.
      intros [[_ <-]|[_ Hk]]%lookup_insert_Some; [simpl; lia|done].
    + reflexivity.
    + exists s', cfg'. repeat split; assumption.
Defined.

(** ** Configuration errors *)

Section Rejected.
Context `{Libc}.

Lemma directive_rejected cfg token buffer s f :
  rejected token buffer (current_tape s) ->
  directive cfg token buffer s = Some f -> result (flow_state f) = None.
Proof.
  intros Hrej. unfold directive.
  inversion Hrej as [b Ht|b Ht|b a Hl Ht|b Hl Ht|b a Hl Ht|b a x y vals Hv Hx Hy Ht
                    |b a Hc Ht]; subst; simpl; rewrite <- ?Ht; simpl.
  1,2: by intros [= <-].
  1,2,3: rewrite (proj2 (Nat.eqb_neq _ _) Hl); intros [= <-]; simpl;
    unfold reset_if; by repeat (case_match; simpl).
  - rewrite Hv. simpl. unfold converted. simpl.
    rewrite (proj2 (Qeq_bool_iff _ _) Hx), (proj2 (Qeq_bool_iff _ _) Hy).
    intros [= <-]; simpl. unfold reset_if; by repeat (case_match; simpl).
  - rewrite Hc. simpl. by intros [= <-].
Qed.

(** A rejected line ends the loop with [result] reset: [ParseConfig]
    returns [NULL] (and the constructor's assertion fails). *)
Lemma parse_loop_rejected fuel s cfg in2 token buffer :
  result s = Some cfg -> eofbit (in_ s) = false ->
  read_line (in_ s) = (in2, token, buffer) ->
  rejected token buffer (current_tape s) ->
  exists final, parse_loop (S (S fuel)) s = Some final /\ result final = None.
Proof.
  intros Hr He Hl Hrej. simpl. rewrite Hr, He. unfold loop_body. rewrite Hl.
  destruct (directive_total cfg token buffer (set_in in2 s)) as [f Hf].
  rewrite Hf.
  assert (result (flow_state f) = None) as Hn.
  { eapply directive_rejected; [|done]. by destruct s. }
  destruct f as [s'|s']; simpl in *.
  - rewrite Hn. by eexists.
  - by eexists.
Qed.

End Rejected.

Example zero_spacing_rejected :
  (p ← ParseConfig (unlines ["Tape: 0805@1k"; "spacing: 0 0"]);
   Some (config_ptr p, diagnostics p))
  = Some (None, ["Spacing: eat least one needs to be set ' 0 0'" ++ nl]).
Proof. reflexivity. Qed.

Example count_without_tape_rejected :
  (p ← ParseConfig (unlines ["Board:"; "count: 3"]);
   Some (config_ptr p, diagnostics p))
  = Some (None, ["Count without tape."]).
Proof. reflexivity. Qed.

(** ** The angle: directive *)

(** C1 (the source departs from it). A line [angle: 90] in the block of a
    reel leaves the reel as [Tape()] made it: the line is skipped for
    every payload, and after construction the reel reports the
    orientation 0. *)
Theorem C1_angle_line_ignored `{Libc} :
  (forall cfg buffer s, directive cfg "angle:" buffer s = Some (Next s)) /\
  (p ← ParseConfig (unlines ["Tape: 0805@1k"; "angle: 90"]);
   t ← tape_of p "0805@1k"; Some (angle t, diagnostics p))
  = Some (0%Q, []) /\
  (p ← ParseConfig (unlines ["Tape: 0805@1k"; "angle: 90"]);
   tape_of p "0805@1k")
  = (p ← ParseConfig (unlines ["Tape: 0805@1k"]); tape_of p "0805@1k").
Proof. split; [done|]. split; reflexivity. Qed.

(** C4 (the source departs from it). [angle:] outside the block of a reel,
    and [angle:] with a payload that is no number, are accepted: a
    configuration is returned and nothing is reported. *)
Theorem C4_angle_errors_accepted `{Libc} :
  (p ← ParseConfig (unlines ["Board:"; "angle: 90"]);
   Some (bool_decide (is_Some (config_ptr p)), diagnostics p))
  = Some (true, []) /\
  (p ← ParseConfig (unlines ["Tape: 0805@1k"; "angle: ninety"]);
   Some (bool_decide (is_Some (config_ptr p)), diagnostics p))
  = Some (true, []).
Proof. split; reflexivity. Qed.

(** ** From the file to the output *)

(** The two keys of the [Tape:] line draw on one reel: the second request
    picks the slot after the one the first request took. *)
Example example_file_run :
  (c ← GCodePickNPlace_new example_file;
   match c with
   | Constructed m =>
       m' ← Run [example_part; example_unknown; example_alias] m;
       Some (stdout m', stderr m', cursor <$> tape_heap m')
   | AssertionFailed _ => None
   end)
  = Some ([gcode_preamble;
           pick_gcode "R1 (0805@1k)" 0 0 15 (ANGLE_FACTOR * 0) 5 15;
           place_gcode "R1 (0805@1k)" 105 205 15 (ANGLE_FACTOR * 10) 3 15;
           pick_gcode "R2 (0805@2k)" 4 0 15 (ANGLE_FACTOR * 0) 5 15;
           place_gcode "R2 (0805@2k)" 106 207 15 (ANGLE_FACTOR * 0) 3 15;
           gcode_finish],
          ["No tape for '0603@100n'" ++ nl],
          [2%Z]).
Proof. reflexivity. Qed.

(** * Further properties of the code *)

(** ** ParseConfig is line-oriented *)

Section Lines.
Context `{Libc}.

Lemma directive_set_in cfg token buffer i s :
  directive cfg token buffer (set_in i s)
  = flow_map (set_in i) <$> directive cfg token buffer s.
Proof.
  destruct (String.eqb_spec token "Tape:") as [->|Hne].
  - by rewrite !directive_Tape.
  - unfold directive, reset_if. rewrite (proj2 (String.eqb_neq _ _) Hne).
    destruct s as [i0 r c x y z h e]; simpl.
    repeat (case_match; simpl in *; try done; try congruence).
Qed.

Lemma apply_lines_failed ls s :
  result s = None -> apply_lines ls s = Some s.
Proof. destruct ls as [|[t b] ls]; [done|]. simpl. by intros ->. Qed.

Lemma apply_lines_set_in ls i s :
  apply_lines ls (set_in i s) = set_in i <$> apply_lines ls s.
Proof.
  revert s; induction ls as [|[t b] ls IH]; intros s; simpl; [done|].
  destruct (result s) as [cfg|]; [|done].
  rewrite directive_set_in.
  destruct (directive cfg t b s) as [[s'|s']|]; simpl; [|done..].
  apply IH.
Qed.

(** The loop and the list of lines it reads give the same configuration,
    the same tapes and the same diagnostics. *)
Lemma parse_loop_apply_lines fuel s final :
  parse_loop fuel s = Some final ->
  exists r, apply_lines (lines fuel (in_ s)) s = Some r
            /\ outcome r = outcome final
            /\ current_tape r = current_tape final.
Proof.
  revert s; induction fuel as [|fuel IH]; intros s; [done|]. simpl.
  destruct (result s) as [cfg|] eqn:Hr.
  2:{ intros [= <-]. exists s. by rewrite apply_lines_failed. }
  destruct (eofbit (in_ s)) eqn:He.
  { intros [= <-]. by exists s. }
  unfold loop_body.
  destruct (read_line (in_ s)) as [[in2 token] buffer] eqn:El.
  rewrite directive_set_in. simpl. rewrite Hr.
  destruct (directive cfg token buffer s) as [[s'|s']|]; simpl; [| |done].
  - intros Hp. destruct (IH _ Hp) as (r & Hr' & Ho & Hc). simpl in Hr'.
    rewrite apply_lines_set_in in Hr'.
    destruct (apply_lines (lines fuel in2) s') as [r'|]; [|done].
    injection Hr' as <-. exists r'. split; [done|]. by destruct r'.
  - intros [= <-]. exists s'. split; [done|]. by destruct s'.
Qed.

End Lines.

Lemma ParseConfig_apply_lines `{Libc} file p :
  ParseConfig file = Some p ->
  outcome <$> apply_lines (file_lines file) (ParseConfig_init "") = Some p.
Proof.
  unfold ParseConfig, ParseConfig_fuel, file_lines.
  destruct (parse_loop _ _) as [final|] eqn:E; [|done]. intros [= <-].
  destruct (parse_loop_apply_lines _ _ _ E) as (r & Hr & Ho & _).
  change (ParseConfig_init file)
    with (set_in (open file) (ParseConfig_init "")) in Hr.
  rewrite apply_lines_set_in in Hr. simpl in Hr.
  destruct (apply_lines _ (ParseConfig_init "")) as [r'|]; [|done].
  injection Hr as <-. simpl. f_equal. by destruct r'.
Qed.

(** X1. The outcome of [ParseConfig] depends on the file only through the
    pairs of first token and rest of line that the loop reads: two files
    that give the same pairs give the same configuration, the same tapes
    and the same diagnostics. Blank lines, indentation and the white
    space before a line end up in no pair. *)
Theorem X1_ParseConfig_line_oriented `{Libc} (file1 file2 : string)
    (p1 p2 : parsed) :
  ParseConfig file1 = Some p1 -> ParseConfig file2 = Some p2 ->
  file_lines file1 = file_lines file2 -> p1 = p2.
Proof.
  intros H1%ParseConfig_apply_lines H2%ParseConfig_apply_lines Hl.
  rewrite Hl in H1. congruence.
Qed.

Lemma X1_ParseConfig_line_oriented_witness :
  exists p1 p2,
    ParseConfig example_file = Some p1 /\
    ParseConfig example_file_spaced = Some p2 /\
    file_lines example_file = file_lines example_file_spaced /\
    p1 = p2.
Proof.
  assert (is_Some (ParseConfig example_file)) as [p1 H1]
    by (vm_compute; by eexists).
  assert (is_Some (ParseConfig example_file_spaced)) as [p2 H2]
    by (vm_compute; by eexists).
  exists p1, p2. split; [exact H1|]. split; [exact H2|].
  split; [by vm_compute|].
  apply (X1_ParseConfig_line_oriented example_file example_file_spaced p1 p2
           H1 H2).
  by vm_compute.
Defined.

(** ** Diagnostics and failure *)

Section Diagnostics.
Context `{Libc}.

Lemma directive_diagnostics cfg token buffer s f :
  result s = Some cfg -> cerr s = [] ->
  directive cfg token buffer s = Some f ->
  (is_Some (result (flow_state f)) /\ cerr (flow_state f) = []
   /\ exists s', f = Next s')
  \/ (result (flow_state f) = None /\ cerr (flow_state f) <> []).
Proof.
  intros Hr He.
  destruct (String.eqb_spec token "Tape:") as [->|Hne].
  { rewrite directive_Tape. intros [= <-]. left. simpl. eauto. }
  unfold directive, reset_if. rewrite (proj2 (String.eqb_neq _ _) Hne).
  destruct s as [i0 r c x y z h e]; simpl in *. subst e r.
  repeat (case_match; simpl in *; try done; try congruence);
    intros [= <-]; simpl; eauto.
Qed.

(** As long as [result] is set nothing has been written to [stderr], and
    when the loop is left with [result] reset something has. *)
Lemma parse_loop_diagnostics fuel s final cfg :
  result s = Some cfg -> cerr s = [] -> parse_loop fuel s = Some final ->
  (is_Some (result final) /\ cerr final = [])
  \/ (result final = None /\ cerr final <> []).
Proof.
  revert s cfg; induction fuel as [|fuel IH]; intros s cfg Hr He; [done|].
  simpl. rewrite Hr. destruct (eofbit (in_ s)).
  { intros [= <-]. left. by rewrite Hr. }
  unfold loop_body. destruct (read_line (in_ s)) as [[in2 token] buffer].
  destruct (directive cfg token buffer (set_in in2 s)) as [f|] eqn:Hd; [|done].
  destruct (directive_diagnostics cfg token buffer (set_in in2 s) f
              ltac:(by destruct s) ltac:(by destruct s) Hd)
    as [([cfg' Hr'] & He' & s' & ->)|[Hr' He']].
  - simpl in *. by apply (IH _ _ Hr' He').
  - destruct f as [s'|s']; simpl in *; [|by intros [= <-]; right].
    intros Hp. destruct fuel; [done|]. simpl in Hp. rewrite Hr' in Hp.
    injection Hp as <-. by right.
Qed.

End Diagnostics.

(** X2. [ParseConfig] returns [NULL] exactly when it has written to
    [stderr]: every path that reports a problem resets [result], and
    [result] is reset nowhere else. *)
Theorem X2_NULL_iff_diagnostics `{Libc} (file : string) (p : parsed) :
  ParseConfig file = Some p ->
  (config_ptr p = None <-> diagnostics p <> []).
Proof.
  unfold ParseConfig, ParseConfig_fuel.
  destruct (parse_loop _ _) as [final|] eqn:E; [|done]. intros [= <-]. simpl.
  destruct (parse_loop_diagnostics _ (ParseConfig_init file) _ Config_new
              eq_refl eq_refl E)
    as [[[cfg Hr] He]|[Hr He]].
  - rewrite Hr, He. split; done.
  - rewrite Hr. split; done.
Qed.

Lemma X2_NULL_iff_diagnostics_witness :
  exists p,
    ParseConfig (unlines ["Tape: 0805@1k"; "origin: 1 2"]) = Some p /\
    config_ptr p = None /\
    diagnostics p = ["Parse problem tape origin: ' 1 2'" ++ nl].
Proof.
  assert (is_Some (ParseConfig (unlines ["Tape: 0805@1k"; "origin: 1 2"])))
    as [p Hp] by (vm_compute; by eexists).
  exists p. split; [exact Hp|].
  assert (diagnostics p = ["Parse problem tape origin: ' 1 2'" ++ nl]) as Hd.
  { revert Hp. vm_compute. by intros [= <-]. }
  split; [|exact Hd].
  apply (X2_NULL_iff_diagnostics _ p Hp). by rewrite Hd.
Defined.

(** ** Lines that end the loop, lines that do nothing *)

(** X3. When the loop reads a line it rejects - [spacing:] or [count:]
    with no current tape, [origin:], [spacing:] or [count:] with a payload
    of which [sscanf] converts too few values, or a spacing of zero in
    both directions - it ends with that pass or the next test of its
    condition, [result] is reset, and nothing more is read: the lines
    after it are not looked at. *)
Theorem X3_rejected_line_ends_loop `{Libc} (s : locals) (cfg : Config)
    (in2 : istream) (token buffer : string) (fuel : nat) :
  result s = Some cfg -> eofbit (in_ s) = false ->
  read_line (in_ s) = (in2, token, buffer) ->
  rejected token buffer (current_tape s) ->
  exists final,
    parse_loop (S (S fuel)) s = Some final /\
    result final = None /\ in_ final = in2.
Proof.
  intros Hr He Hl Hrej. simpl. rewrite Hr, He. unfold loop_body. rewrite Hl.
  destruct (directive_total cfg token buffer (set_in in2 s)) as [f Hf].
  rewrite Hf.
  assert (result (flow_state f) = None) as Hn.
  { eapply directive_rejected; [|done]. by destruct s. }
  pose proof (directive_in _ _ _ _ _ Hf) as Hin. simpl in Hin.
  destruct f as [s'|s']; simpl in *.
  - rewrite Hn. by eexists.
  - by eexists.
Qed.

Lemma X3_rejected_line_ends_loop_witness :
  exists final,
    parse_loop 3
      (ParseConfig_init (unlines ["Board:"; "spacing: 4 0"; "Tape: 0805@1k"]))
    = Some final /\
    result final = None /\ heap final = [] /\
    rest (in_ final) = unlines ["Tape: 0805@1k"].
Proof.
  assert (parse_loop 3
            (ParseConfig_init
               (unlines ["Board:"; "spacing: 4 0"; "Tape: 0805@1k"]))
          = parse_loop 2
              (set_in (open (unlines ["spacing: 4 0"; "Tape: 0805@1k"]))
                 (ParseConfig_init ""))) as Hstep by reflexivity.
  destruct (X3_rejected_line_ends_loop
              (set_in (open (unlines ["spacing: 4 0"; "Tape: 0805@1k"]))
                 (ParseConfig_init ""))
              Config_new (open (unlines ["Tape: 0805@1k"])) "spacing:" " 4 0" 0
              eq_refl eq_refl eq_refl (spacing_without_tape " 4 0"))
    as (final & Hp & Hr & Hin).
  exists final. rewrite Hstep.
  split; [exact Hp|]. split; [exact Hr|].
  split; [|by rewrite Hin].
  revert Hp. vm_compute. by intros [= <-].
Defined.

Section Ignored.
Context `{Libc}.

Lemma directive_ignored cfg token buffer s :
  ignored token -> directive cfg token buffer s = Some (Next s).
Proof.
  unfold directive. intros [->|(H1 & H2 & H3 & H4 & H5)]; [done|].
  rewrite (proj2 (String.eqb_neq _ _) H1), (proj2 (String.eqb_neq _ _) H2),
    (proj2 (String.eqb_neq _ _) H3), (proj2 (String.eqb_neq _ _) H4),
    (proj2 (String.eqb_neq _ _) H5).
  by destruct (is_empty token || first_is "#" token).
Qed.

Lemma apply_lines_ignored pre token buffer post s :
  ignored token ->
  apply_lines (pre ++ (token, buffer) :: post) s = apply_lines (pre ++ post) s.
Proof.
  intros Hi. revert s; induction pre as [|[t b] pre IH]; intros s; simpl.
  - destruct (result s) as [cfg|] eqn:Hr.
    + by rewrite directive_ignored.
    + by rewrite apply_lines_failed.
  - destruct (result s) as [cfg|]; [|done].
    destruct (directive cfg t b s) as [[s'|s']|]; [|done..]. apply IH.
Qed.

End Ignored.

(** X4. A line without a token, a comment line and a line whose first
    token is none of [Board:], [Tape:], [origin:], [spacing:], [count:]
    change nothing: the file with such a line and the file without it
    give the same configuration, tapes and diagnostics. *)
Theorem X4_ignored_line `{Libc} (file1 file2 : string) (p1 p2 : parsed)
    (pre post : list (string * string)) (token buffer : string) :
  ParseConfig file1 = Some p1 -> ParseConfig file2 = Some p2 ->
  file_lines file1 = (pre ++ (token, buffer) :: post)%list ->
  file_lines file2 = (pre ++ post)%list ->
  ignored token -> p1 = p2.
Proof.
  intros H1%ParseConfig_apply_lines H2%ParseConfig_apply_lines Hl1 Hl2 Hi.
  rewrite Hl1, apply_lines_ignored in H1 by done. rewrite Hl2 in H2.
  congruence.
Qed.

Lemma X4_ignored_line_witness :
  exists p1 p2,
    ParseConfig (unlines ["Tape: 0805@1k"; "pitch: 4"; "count: 3"]) = Some p1 /\
    ParseConfig (unlines ["Tape: 0805@1k"; "count: 3"]) = Some p2 /\
    file_lines (unlines ["Tape: 0805@1k"; "pitch: 4"; "count: 3"])
    = ([("Tape:", " 0805@1k")] ++ ("pitch:", " 4")
         :: [("count:", " 3"); ("", "")])%list /\
    file_lines (unlines ["Tape: 0805@1k"; "count: 3"])
    = ([("Tape:", " 0805@1k")] ++ [("count:", " 3"); ("", "")])%list /\
    ignored "pitch:" /\ p1 = p2.
Proof.
  assert (is_Some (ParseConfig
            (unlines ["Tape: 0805@1k"; "pitch: 4"; "count: 3"])))
    as [p1 H1] by (vm_compute; by eexists).
  assert (is_Some (ParseConfig (unlines ["Tape: 0805@1k"; "count: 3"])))
    as [p2 H2] by (vm_compute; by eexists).
  assert (ignored "pitch:") as Hi by (right; by repeat split).
  exists p1, p2. split; [exact H1|]. split; [exact H2|].
  split; [reflexivity|]. split; [reflexivity|]. split; [exact Hi|].
  exact (X4_ignored_line _ _ p1 p2 [("Tape:", " 0805@1k")]
           [("count:", " 3"); ("", "")] "pitch:" " 4" H1 H2 eq_refl eq_refl Hi).
Defined.

(** ** When the loop ends *)

(** X5. For a file in which no line has more than 1023 characters the
    loop ends: [ParseConfig] returns, after at most two more tests of the
    loop condition than the file has characters. *)
Theorem X5_ParseConfig_returns `{Libc} (file : string) :
  short_lines file ->
  exists p,
    ParseConfig file = Some p /\
    forall fuel, S (S (String.length file)) <= fuel ->
                 ParseConfig_fuel fuel file = Some p.
Proof.
  intros Hs. destruct (ParseConfig_terminates file Hs) as [p Hp].
  exists p. split; [done|]. intros fuel Hf.
  revert Hp. unfold ParseConfig, ParseConfig_fuel.
  destruct (parse_loop (S (S (String.length file))) _) as [s|] eqn:E; [|done].
  intros [= <-].
  rewrite (parse_loop_fuel_enough _ _ _ E); [done|].
  unfold pending. simpl. lia.
Qed.

Lemma X5_ParseConfig_returns_witness :
  short_lines example_file /\
  exists p, ParseConfig example_file = Some p /\
            ParseConfig_fuel 1000 example_file = Some p.
Proof.
  assert (short_lines example_file) as Hs by reflexivity.
  split; [exact Hs|].
  destruct (X5_ParseConfig_returns example_file Hs) as (p & Hp & Hf).
  exists p. split; [exact Hp|]. apply Hf. apply Nat.leb_le. by vm_compute.
Defined.

(** X6. The loop tests [in.eof()] only. On a stream that has [failbit]
    without [eofbit] - an [ifstream] whose file could not be opened, or
    one on which [getline] met a line too long for the buffer - every
    pass reads an empty token and leaves everything as it is, so the loop
    never ends and [ParseConfig] does not return. *)
Theorem X6_failbit_without_eofbit_hangs `{Libc} (s : locals) (cfg : Config) :
  result s = Some cfg -> eofbit (in_ s) = false -> failbit (in_ s) = true ->
  loop_body cfg s = Some (Next s) /\ forall fuel, parse_loop fuel s = None.
Proof.
  intros Hr He Hf. split.
  - unfold loop_body. rewrite read_line_stuck by done.
    by rewrite set_in_same.
  - intros fuel. by eapply parse_loop_stuck.
Qed.

Lemma X6_failbit_without_eofbit_hangs_witness :
  loop_body Config_new (set_in open_failed (ParseConfig_init ""))
  = Some (Next (set_in open_failed (ParseConfig_init "")))
  /\ parse_loop 1000 (set_in open_failed (ParseConfig_init "")) = None.
Proof.
  destruct (X6_failbit_without_eofbit_hangs
              (set_in open_failed (ParseConfig_init "")) Config_new
              eq_refl eq_refl eq_refl) as [Hb Hp].
  split; [exact Hb|apply Hp].
Defined.

(** ** Pointers *)

(** X7. In a configuration that [ParseConfig] returns every key points to
    an allocated tape, and there are exactly as many tapes as the file
    has [Tape:] lines: each [Tape:] line allocates one, whether or not it
    lists a name, and none is ever released. *)
Theorem X7_pointers_and_tapes `{Libc} (file : string) (p : parsed)
    (cfg : Config) :
  ParseConfig file = Some p -> config_ptr p = Some cfg ->
  length (tapes p) = count_Tape (file_lines file) /\
  forall k a, tape_for_component cfg !! k = Some a ->
              exists t, tapes p !! a = Some t.
Proof.
  intros Hp Hc. split.
  - by destruct (ParseConfig_binding _ _ _ "" Hp Hc).
  - intros k a Hk. apply lookup_lt_is_Some_2.
    by apply (ParseConfig_valid _ _ _ Hp Hc k).
Qed.

Lemma X7_pointers_and_tapes_witness :
  exists p cfg,
    ParseConfig (unlines ["Tape: a b"; "Tape:"; "Tape: a b"]) = Some p /\
    config_ptr p = Some cfg /\
    length (tapes p) = 3 /\
    (forall k a, tape_for_component cfg !! k = Some a ->
                 exists t, tapes p !! a = Some t).
Proof.
  assert (is_Some (ParseConfig_ok
            (unlines ["Tape: a b"; "Tape:"; "Tape: a b"])))
    as [[p cfg] Hok] by (vm_compute; by eexists).
  apply ParseConfig_ok_Some in Hok as [Hp Hc].
  exists p, cfg. split; [exact Hp|]. split; [exact Hc|].
  exact (X7_pointers_and_tapes _ p cfg Hp Hc).
Defined.

(** X8. A machine that the constructor built has printed nothing, and
    [PrintPart] never follows a pointer to no tape on it: any sequence of
    requests runs to the end. *)
Theorem X8_constructed_machine_runs `{Libc} (file : string) (m : machine)
    (parts : list Part) :
  GCodePickNPlace_new file = Some (Constructed m) ->
  stdout m = [] /\ stderr m = [] /\
  exists m', Run parts m = Some m' /\ machine_valid m'.
Proof.
  intros Hn. pose proof (GCodePickNPlace_new_valid _ _ Hn) as Hv.
  assert (stdout m = [] /\ stderr m = []) as [Ho He].
  { revert Hn. unfold GCodePickNPlace_new.
    destruct (ParseConfig file) as [p|] eqn:Hp; [|done]. simpl.
    destruct (config_ptr p) as [cfg|] eqn:Hc; [|done]. intros [= <-]. simpl.
    split; [done|]. revert Hp Hc. unfold ParseConfig, ParseConfig_fuel.
    destruct (parse_loop _ _) as [final|] eqn:E; [|done].
    intros [= <-]. simpl.
    destruct (parse_loop_diagnostics _ (ParseConfig_init file) _ Config_new
                eq_refl eq_refl E) as [[_ He]|[Hr _]]; [done|congruence]. }
  split; [done|]. split; [done|]. unfold Run.
  destruct (PrintParts_defined parts (Init m) (Init_valid m Hv)) as [m1 Hm1].
  rewrite Hm1. simpl. eexists. split; [done|].
  clear -Hv Hm1. assert (machine_valid (Init m)) as Hv' by done.
  revert Hv' Hm1. generalize (Init m). clear.
  induction parts as [|part parts IH]; intros m; simpl.
  - by intros Hv [= <-].
  - intros Hv. destruct (PrintPart part m) as [m2|] eqn:Hp; simpl; [|done].
    apply IH. by eapply PrintPart_valid.
Qed.

Lemma X8_constructed_machine_runs_witness :
  exists m m',
    GCodePickNPlace_new example_file = Some (Constructed m) /\
    stdout m = [] /\ stderr m = [] /\
    Run [example_part; example_unknown; example_alias; example_part;
         example_part] m = Some m' /\
    machine_valid m'.
Proof.
  assert (exists m, GCodePickNPlace_new example_file = Some (Constructed m))
    as [m Hm] by (vm_compute; by eexists).
  destruct (X8_constructed_machine_runs example_file m
              [example_part; example_unknown; example_alias; example_part;
               example_part] Hm) as (Ho & He & m' & Hr & Hv).
  exists m, m'. repeat split; assumption.
Defined.

(** ** What PrintPart leaves alone *)

(** X9. [PrintPart] never changes the configuration (board origin and
    map), never adds or removes a tape, changes no tape other than the
    one its key points to, and only appends to [stdout] and [stderr]. *)
Theorem X9_PrintPart_frame (part : Part) (m m' : machine) :
  PrintPart part m = Some m' ->
  config_ m' = config_ m /\
  length (tape_heap m') = length (tape_heap m) /\
  (forall b, tape_for_component (config_ m) !! key_of part <> Some b ->
             tape_heap m' !! b = tape_heap m !! b) /\
  (exists out, stdout m' = (stdout m ++ out)%list) /\
  (exists err, stderr m' = (stderr m ++ err)%list).
Proof.
  unfold PrintPart.
  destruct (tape_for_component (config_ m) !! key_of part) as [a|] eqn:Ha.
  2:{ intros [= <-]. simpl. repeat split; try done.
      - exists []. by rewrite app_nil_r.
      - by eexists. }
  destruct (tape_heap m !! a) as [tape|]; simpl; [|done].
  destruct (GetNextPos tape) as [[[[px py] pz]|] tape']; intros [= <-]; simpl;
    rewrite length_insert; (split; [done|]); (split; [done|]); split.
  - intros b Hb. apply list_lookup_insert_ne. congruence.
  - split; [|exists []; by rewrite app_nil_r].
    eexists. by rewrite <- app_assoc.
  - intros b Hb. apply list_lookup_insert_ne. congruence.
  - split; [exists []; by rewrite app_nil_r|]. by eexists.
Qed.

Lemma X9_PrintPart_frame_witness :
  exists m',
    PrintPart example_part example_machine = Some m' /\
    config_ m' = config_ example_machine /\
    length (tape_heap m') = 1.
Proof.
  assert (is_Some (PrintPart example_part example_machine)) as [m' Hp]
    by (vm_compute; by eexists).
  destruct (X9_PrintPart_frame example_part example_machine m' Hp)
    as (Hc & Hl & _).
  exists m'. split; [exact Hp|]. split; [exact Hc|exact Hl].
Defined.

(** ** Names that no request can use *)

Lemma has_at_app s1 s2 : has_at (s1 ++ s2) = has_at s1 || has_at s2.
Proof.
  induction s1 as [|c s1 IH]; simpl; [done|].
  rewrite IH. by rewrite orb_assoc.
Qed.

(** X10. The key [PrintPart] looks up always has an ['@'] in it, so a
    name without ['@'] that a [Tape:] line binds is never found by a
    request. In particular a [Tape:] line without names, which binds the
    empty key to its new tape, allocates a tape that no request can use. *)
Theorem X10_names_without_at `{Libc} (cfg : Config) (buffer : string)
    (s : locals) :
  (forall part, has_at (key_of part) = true) /\
  (forall part k, has_at k = false -> key_of part <> k) /\
  (is_empty (skip_ws buffer) = true ->
   directive cfg "Tape:" buffer s
   = Some (Next (set_result
        (Some (mkConfig (board_origin cfg)
                 (<["" := length (heap s)]> (tape_for_component cfg))))
        (set_current_tape (Some (length (heap s)))
           (set_heap (heap s ++ [Tape_new]) s))))).
Proof.
  assert (forall part, has_at (key_of part) = true) as Hat.
  { intros part. unfold key_of. rewrite has_at_app. simpl.
    by rewrite orb_true_r. }
  split; [done|]. split.
  - intros part k Hk Heq. rewrite <- Heq, Hat in Hk. done.
  - intros Hb. rewrite directive_Tape. do 5 f_equal.
    unfold Tape_names, open. simpl. unfold extract, good. simpl.
    by rewrite Hb.
Qed.

Lemma X10_names_without_at_witness :
  is_empty (skip_ws "   ") = true /\
  has_at "0805" = false /\
  key_of example_part <> "0805" /\
  exists s' cfg',
    directive Config_new "Tape:" "   " (ParseConfig_init "") = Some (Next s')
    /\ result s' = Some cfg'
    /\ tape_for_component cfg' !! "" = Some 0.
Proof.
  destruct (X10_names_without_at Config_new "   " (ParseConfig_init ""))
    as (_ & Hne & Hd).
  split; [reflexivity|]. split; [reflexivity|].
  split; [exact (Hne example_part "0805" eq_refl)|].
  eexists _, _. split; [exact (Hd eq_refl)|]. split; reflexivity.
Defined.

(** ** The rotation operands *)

(** X11. Whatever the orientation of the reel and the angle of the part,
    the operands of the two rotations lie strictly between -360 and 360,
    so the values sent to the rotation axis lie strictly between
    -50.34965 and 50.34965, one turn either way. *)
Theorem X11_rotation_within_one_turn (orientation target : Q) :
  (- 360 < pick_angle orientation /\ pick_angle orientation < 360)%Q /\
  (- 360 < place_angle target orientation
   /\ place_angle target orientation < 360)%Q /\
  (- (5034965 # 100000) < ANGLE_FACTOR * pick_angle orientation
   /\ ANGLE_FACTOR * pick_angle orientation < 5034965 # 100000)%Q /\
  (- (5034965 # 100000) < ANGLE_FACTOR * place_angle target orientation
   /\ ANGLE_FACTOR * place_angle target orientation < 5034965 # 100000)%Q.
Proof.
  unfold pick_angle, place_angle.
  pose proof (fmod_magnitude orientation) as [H1 H2].
  pose proof (fmod_magnitude (target - orientation + 360)) as [H3 H4].
  set (a := fmod orientation 360) in *. clearbody a.
  set (b := fmod (target - orientation + 360) 360) in *. clearbody b.
  assert (ANGLE_FACTOR == (5034965 # 100000) * (1 # 360))%Q as ->
    by reflexivity.
  repeat split; lra.
Qed.

(** ** Blocks of the configuration *)

Section Blocks.
Context `{Libc}.

Lemma alter_last (f : Tape -> Tape) (h : list Tape) (t : Tape) :
  alter f (length h) (h ++ [t])%list = (h ++ [f t])%list.
Proof. induction h as [|t' h IH]; simpl; [done|]. f_equal. apply IH. Qed.

(** X12. A reel block - a [Tape:] line followed by [origin:] with three
    numbers, [spacing:] with two numbers that are not both zero, and
    [count:] with an integer - adds exactly one tape, the result of the
    three setters on a new [Tape], binds every name of the [Tape:] line
    to it, and leaves the board origin, the tapes before it and [stderr]
    as they were. *)
Theorem X12_reel_block (s : locals) (cfg : Config)
    (names origin_ spacing_ count_ : string) (x y z dx dy : Q) (n : Z) :
  result s = Some cfg ->
  take 3 (sscanf_floats origin_) = [x; y; z] ->
  take 2 (sscanf_floats spacing_) = [dx; dy] ->
  Qeq_bool dx 0 && Qeq_bool dy 0 = false ->
  sscanf_int count_ = Some n ->
  apply_lines [("Tape:", names); ("origin:", origin_);
               ("spacing:", spacing_); ("count:", count_)] s
  = Some {| in_ := in_ s;
            result := Some {| board_origin := board_origin cfg;
                              tape_for_component :=
                                bind_all (Tape_names names) (length (heap s))
                                  (tape_for_component cfg) |};
            current_tape := Some (length (heap s));
            x_ := dx; y_ := dy; z_ := z;
            heap := heap s ++
                      [SetNumberComponents n
                         (SetComponentSpacing dx dy
                            (SetFirstComponentPosition x y z Tape_new))];
            cerr := cerr s |}.
Proof.
  intros Hr Ho Hs Hz Hc. cbn [apply_lines]. rewrite Hr, directive_Tape.
  remember (bind_all (Tape_names names) (length (heap s))
              (tape_for_component cfg)) as m eqn:Hm. clear Hm.
  destruct s as [i r c x0 y0 z0 h e]. simpl in Hr. subst r.
  unfold directive, reset_if, converted. simpl.
  rewrite Ho. simpl. rewrite Hs. simpl. rewrite Hz, Hc. simpl.
  by rewrite !alter_last.
Qed.

End Blocks.

Lemma X12_reel_block_witness :
  exists r,
    apply_lines [("Tape:", " 0805@1k 0805@2k"); ("origin:", " 0 0 5");
                 ("spacing:", " 4 0"); ("count:", " 3")]
      (ParseConfig_init "") = Some r /\
    heap r = [mkTape (0, 0, 5)%Q (4, 0)%Q 0 3 0] /\ cerr r = [] /\
    current_tape r = Some 0.
Proof.
  eexists. split; [|split; [|split]].
  - exact (X12_reel_block (ParseConfig_init "") Config_new
             " 0805@1k 0805@2k" " 0 0 5" " 4 0" " 3" 0 0 5 4 0 3
             eq_refl eq_refl eq_refl eq_refl eq_refl).
  - reflexivity.
  - reflexivity.
  - reflexivity.
Defined.

(** X13. A board block - a [Board:] line followed by [origin:] with two
    numbers - sets the board origin and nothing else: the map, the tapes
    and [stderr] stay as they were, and no tape is current afterwards, so
    that a [spacing:] or [count:] line that follows is rejected. *)
Theorem X13_board_block `{Libc} (s : locals) (cfg : Config)
    (board_ origin_ buffer : string) (x y : Q) :
  result s = Some cfg ->
  take 2 (sscanf_floats origin_) = [x; y] ->
  apply_lines [("Board:", board_); ("origin:", origin_)] s
  = Some {| in_ := in_ s;
            result := Some {| board_origin := mkPosition x y;
                              tape_for_component := tape_for_component cfg |};
            current_tape := None;
            x_ := x_ s; y_ := y_ s; z_ := z_ s;
            heap := heap s; cerr := cerr s |}
  /\ forall token, token = "spacing:" \/ token = "count:" ->
       exists r,
         apply_lines [("Board:", board_); ("origin:", origin_);
                      (token, buffer)] s = Some r /\
         result r = None /\ heap r = heap s.
Proof.
  intros Hr Ho.
  destruct s as [i r c x0 y0 z0 h e]. simpl in Hr. subst r. split.
  - cbn [apply_lines]. unfold directive, reset_if, converted. simpl.
    rewrite Ho. by simpl.
  - intros token [-> | ->]; cbn [apply_lines];
      unfold directive, reset_if, converted; simpl; rewrite Ho; simpl;
      by eexists.
Qed.

Lemma X13_board_block_witness :
  exists r r',
    apply_lines [("Board:", ""); ("origin:", " 100 200")]
      (set_current_tape (Some 0) (set_heap [Tape_new] (ParseConfig_init "")))
    = Some r /\
    (board_origin <$> result r) = Some (mkPosition 100 200) /\
    current_tape r = None /\ heap r = [Tape_new] /\ cerr r = [] /\
    apply_lines [("Board:", ""); ("origin:", " 100 200"); ("count:", " 3")]
      (set_current_tape (Some 0) (set_heap [Tape_new] (ParseConfig_init "")))
    = Some r' /\
    result r' = None /\ heap r' = [Tape_new].
Proof.
  assert (take 2 (sscanf_floats " 100 200") = [100%Q; 200%Q]) as Ho
    by reflexivity.
  destruct (X13_board_block
              (set_current_tape (Some 0)
                 (set_heap [Tape_new] (ParseConfig_init "")))
              Config_new "" " 100 200" " 3" 100 200 eq_refl Ho)
    as [Hb Hrej].
  destruct (Hrej "count:" (or_intror eq_refl)) as (r' & Hr' & Hn & Hh).
  eexists _, r'. split; [exact Hb|].
  split; [reflexivity|]. split; [reflexivity|]. split; [reflexivity|].
  split; [reflexivity|]. split; [exact Hr'|]. split; [exact Hn|exact Hh].
Defined.

(** ** The locals that are not initialised *)

Section Scratch.
Context `{Libc}.

Lemma directive_scratch cfg token buffer s1 s2 :
  same_but_scratch s1 s2 -> result s1 = Some cfg ->
  match directive cfg token buffer s1, directive cfg token buffer s2 with
  | Some (Next s1'), Some (Next s2') => same_but_scratch s1' s2'
  | Some (Break s1'), Some (Break s2') => same_but_scratch s1' s2'
  | _, _ => False
  end.
Proof.
  intros (Hi & Hc & Hr & Hl & Hh) Hr1.
  destruct Hh as [Hh He]; [by rewrite Hr1|].
  destruct s1 as [i1 r1 c1 x1 y1 z1 h1 e1], s2 as [i2 r2 c2 x2 y2 z2 h2 e2].
  simpl in *. subst i2 c2 r2 h2 e2 r1.
  destruct (String.eqb_spec token "Tape:") as [->|Hne].
  { rewrite !directive_Tape. by repeat split. }
  unfold directive, reset_if, converted, same_but_scratch.
  rewrite (proj2 (String.eqb_neq _ _) Hne).
  destruct (is_empty token || first_is "#" token); [by repeat split|].
  destruct (String.eqb token "Board:"); [by repeat split|].
  destruct (String.eqb token "origin:").
  { destruct c1 as [a|]; simpl.
    - destruct (take 3 (sscanf_floats buffer)) as [|v0 [|v1 [|v2 [|v3 l]]]];
        simpl; rewrite ?length_alter; repeat split; try done;
        by intros [? [=]].
    - destruct (take 2 (sscanf_floats buffer)) as [|v0 [|v1 [|v2 l]]];
        simpl; repeat split; try done; by intros [? [=]]. }
  destruct (String.eqb token "spacing:").
  { destruct c1 as [a|]; simpl; [|repeat split; try done; by intros [? [=]]].
    destruct (take 2 (sscanf_floats buffer)) as [|v0 [|v1 [|v2 l]]]; simpl;
      repeat (case_match; simpl); rewrite ?length_alter;
        repeat split; try done; by intros [? [=]]. }
  destruct (String.eqb token "count:"); [|by repeat split].
  destruct c1 as [a|]; simpl; [|repeat split; try done; by intros [? [=]]].
  destruct (sscanf_int buffer); simpl; rewrite ?length_alter;
    repeat split; try done; by intros [? [=]].
Qed.

Lemma same_but_scratch_set_in i s1 s2 :
  same_but_scratch s1 s2 -> same_but_scratch (set_in i s1) (set_in i s2).
Proof.
  destruct s1, s2. unfold same_but_scratch. simpl.
  intros (_ & Hc & Hr & Hl & Hh). split; [done|]. split; [done|].
  split; [done|]. split; [done|]. exact Hh.
Qed.

Lemma parse_loop_scratch fuel s1 s2 :
  same_but_scratch s1 s2 ->
  match parse_loop fuel s1, parse_loop fuel s2 with
  | Some f1, Some f2 => same_but_scratch f1 f2
  | None, None => True
  | _, _ => False
  end.
Proof.
  revert s1 s2; induction fuel as [|fuel IH]; intros s1 s2 Hs; [done|].
  pose proof Hs as (Hi & Hc & Hr & Hl & Hh). simpl.
  rewrite <- Hr, <- Hi. destruct (result s1) as [cfg|] eqn:Hr1; [|done].
  destruct (eofbit (in_ s1)); [done|].
  unfold loop_body. rewrite <- Hi.
  destruct (read_line (in_ s1)) as [[in2 token] buffer].
  clear Hi Hc Hr Hl Hh.
  pose proof (same_but_scratch_set_in in2 _ _ Hs) as Hs'.
  pose proof (directive_scratch cfg token buffer _ _ Hs'
                ltac:(by destruct s1)) as Hd.
  destruct (directive cfg token buffer (set_in in2 s1)) as [[s1'|s1']|],
           (directive cfg token buffer (set_in in2 s2)) as [[s2'|s2']|];
    try done.
  by apply IH.
Qed.

End Scratch.

(** X14. What [ParseConfig] returns does not depend on the values the
    locals [x], [y] and [z] happen to hold when the loop is entered: with
    any two choices the loop ends for both or for neither, both return
    [NULL] or both return the same configuration, and a configuration
    that is returned comes with the same tapes. (A value that no [sscanf]
    has written is only ever stored after [result] has been reset.) *)
Theorem X14_uninitialised_locals `{Libc} (file : string) (fuel : nat)
    (x y z x' y' z' : Q) :
  match parse_loop fuel (ParseConfig_init_with x y z file),
        parse_loop fuel (ParseConfig_init_with x' y' z' file) with
  | Some f1, Some f2 =>
      result f1 = result f2 /\
      (is_Some (result f1) -> heap f1 = heap f2 /\ cerr f1 = cerr f2)
  | None, None => True
  | _, _ => False
  end.
Proof.
  assert (same_but_scratch (ParseConfig_init_with x y z file)
            (ParseConfig_init_with x' y' z' file)) as Hs by done.
  pose proof (parse_loop_scratch fuel _ _ Hs) as Hp.
  destruct (parse_loop fuel (ParseConfig_init_with x y z file)) as [f1|],
           (parse_loop fuel (ParseConfig_init_with x' y' z' file)) as [f2|];
    try done.
  by destruct Hp as (_ & _ & Hr & _ & Hh).
Qed.

Lemma X14_uninitialised_locals_witness :
  exists f1 f2,
    parse_loop 200 (ParseConfig_init_with 1 2 3 example_file) = Some f1 /\
    parse_loop 200 (ParseConfig_init_with 0 0 0 example_file) = Some f2 /\
    result f1 = result f2 /\ heap f1 = heap f2 /\ cerr f1 = cerr f2.
Proof.
  assert (exists f1,
            parse_loop 200 (ParseConfig_init_with 1 2 3 example_file) = Some f1
            /\ is_Some (result f1)) as (f1 & H1 & Hs)
    by (vm_compute; eexists; split; [reflexivity|by eexists]).
  assert (is_Some (parse_loop 200 (ParseConfig_init_with 0 0 0 example_file)))
    as [f2 H2] by (vm_compute; by eexists).
  pose proof (X14_uninitialised_locals example_file 200 1 2 3 0 0 0) as Hx.
  rewrite H1, H2 in Hx.
  destruct Hx as [Hr Hh]. destruct (Hh Hs) as [Hh' He].
  exists f1, f2. repeat split; assumption.
Defined.

(** On a failure the stale values can show: after [spacing:] with a
    payload that is no number the test for zero spacing reads what [x]
    and [y] held before, and prints its message or not. *)
Example example_stale_locals :
  (cerr <$> parse_loop 200
     (ParseConfig_init_with 0 0 0 (unlines ["Tape: a@b"; "spacing: wide"])))
  = Some ["Parse problem spacing: ' wide'" ++ nl;
          "Spacing: eat least one needs to be set ' wide'" ++ nl]
  /\
  (cerr <$> parse_loop 200
     (ParseConfig_init_with 1 0 0 (unlines ["Tape: a@b"; "spacing: wide"])))
  = Some ["Parse problem spacing: ' wide'" ++ nl].
Proof. split; reflexivity. Qed.

(** ** The line buffer *)

Lemma getline_scan_buffer n s b r e f :
  getline_scan n s = (b, r, e, f) -> String.length b <= n.
Proof.
  revert n b r e f; induction s as [|c s IH]; intros n b r e f; simpl.
  - intros [= <- <- <- <-]. simpl. lia.
  - destruct (Ascii.eqb c "010"); [intros [= <- <- <- <-]; simpl; lia|].
    destruct n as [|n]; [intros [= <- <- <- <-]; simpl; lia|].
    destruct (getline_scan n s) as [[[b' r'] e'] f'] eqn:E.
    intros [= <- <- <- <-]. simpl. specialize (IH _ _ _ _ _ E). lia.
Qed.

Lemma c_str_length s : String.length (c_str s) <= String.length s.
Proof.
  induction s as [|c s IH]; simpl; [lia|].
  destruct (Ascii.eqb c "000"); simpl; lia.
Qed.

(** X15. What [getline] stores in [char buffer[1024]] has at most 1023
    characters, whatever the file holds: the rest of a longer line is not
    stored (and [failbit] is set). The buffer handed to [sscanf] and to
    the loop over the names is never longer than that. *)
Theorem X15_buffer_bound (i i' : istream) (token buffer : string) :
  read_line i = (i', token, buffer) -> String.length buffer <= 1023.
Proof.
  unfold read_line. destruct (extract i EmptyString) as [in1 t].
  unfold getline. destruct (good in1).
  - change (1024 - 1) with 1023.
    destruct (getline_scan 1023 (rest in1)) as [[[b r] e] f] eqn:E.
    intros [= <- <- <-]. pose proof (getline_scan_buffer _ _ _ _ _ _ E).
    pose proof (c_str_length b). lia.
  - intros [= <- <- <-]. simpl. lia.
Qed.

Lemma X15_buffer_bound_witness :
  exists i' token buffer,
    read_line (open example_long_line) = (i', token, buffer) /\
    String.length buffer = 1023 /\ failbit i' = true /\ eofbit i' = false.
Proof.
  destruct (read_line (open example_long_line)) as [[i' token] buffer] eqn:E.
  pose proof (X15_buffer_bound _ _ _ _ E) as Hle.
  exists i', token, buffer. split; [reflexivity|].
  revert E Hle. vm_compute. intros [= <- <- <-] _. by repeat split.
Defined.

(** ** Tapes that are not current *)

(** X16. No line changes a tape other than the current one: whatever the
    directive and its payload, and whether or not it is rejected, every
    tape that was allocated before and is not the current tape is the
    same afterwards. ([Tape:] allocates a new tape and touches none.) *)
Theorem X16_other_tapes_untouched `{Libc} (cfg : Config)
    (token buffer : string) (s : locals) (f : flow) (b : addr) (t : Tape) :
  directive cfg token buffer s = Some f ->
  heap s !! b = Some t -> current_tape s <> Some b ->
  heap (flow_state f) !! b = Some t.
Proof.
  intros Hd Hb Hc.
  destruct (String.eqb_spec token "Tape:") as [->|Hne].
  { rewrite directive_Tape in Hd. injection Hd as <-. simpl.
    rewrite lookup_app_l; [done|]. by eapply lookup_lt_Some. }
  revert Hd. unfold directive, reset_if.
  rewrite (proj2 (String.eqb_neq _ _) Hne).
  destruct s as [i0 r c x y z h e]; simpl in *.
  repeat (case_match; simpl in *; try done; try congruence);
    intros [= <-]; simpl; try done;
    rewrite list_lookup_alter_ne; (done || congruence).
Qed.

Lemma X16_other_tapes_untouched_witness :
  exists f,
    directive Config_new "origin:" " 1 2 3"
      (set_current_tape (Some 1)
         (set_heap [Tape_new; Tape_new] (ParseConfig_init "")))
    = Some f /\
    heap (flow_state f) !! 0 = Some Tape_new /\
    heap (flow_state f) !! 1
    = Some (SetFirstComponentPosition 1 2 3 Tape_new).
Proof.
  eexists. split; [reflexivity|]. split; [|reflexivity].
  exact (X16_other_tapes_untouched Config_new "origin:" " 1 2 3"
           (set_current_tape (Some 1)
              (set_heap [Tape_new; Tape_new] (ParseConfig_init "")))
           _ 0 Tape_new eq_refl eq_refl ltac:(done)).
Defined.

(** ** Keys that cannot collide *)

Lemma app_at_inj (f1 f2 v1 v2 : string) :
  has_at f1 = false -> has_at f2 = false ->
  f1 ++ String "@" v1 = f2 ++ String "@" v2 -> f1 = f2 /\ v1 = v2.
Proof.
  revert f2; induction f1 as [|c f1 IH]; intros [|c2 f2]; cbn.
  - intros _ _ Heq. injection Heq as ->. done.
  - intros _ [Hc _]%orb_false_elim Heq. injection Heq as <- _.
    by rewrite Ascii.eqb_refl in Hc.
  - intros [Hc _]%orb_false_elim _ Heq. injection Heq as -> _.
    by rewrite Ascii.eqb_refl in Hc.
  - intros [_ H1]%orb_false_elim [_ H2]%orb_false_elim Heq.
    injection Heq as <- Heq.
    destruct (IH _ H1 H2 Heq) as [-> ->]. done.
Qed.

(** X17. When no footprint has an ['@'] in it the key tells the footprint
    and the value apart: two requests with the same key then have the
    same footprint and the same value. *)
Theorem X17_keys_without_at_in_footprint (p1 p2 : Part) :
  has_at (footprint p1) = false -> has_at (footprint p2) = false ->
  key_of p1 = key_of p2 ->
  footprint p1 = footprint p2 /\ value p1 = value p2.
Proof. intros H1 H2 Hk. by apply app_at_inj. Qed.

Lemma X17_keys_without_at_in_footprint_witness :
  has_at (footprint example_part) = false /\
  key_of example_part
  = key_of (mkPart "R9" "0805" "1k" (mkPosition 9 9) 45) /\
  footprint example_part = "0805" /\ value example_part = "1k".
Proof.
  split; [reflexivity|]. split; [reflexivity|].
  destruct (X17_keys_without_at_in_footprint example_part
              (mkPart "R9" "0805" "1k" (mkPosition 9 9) 45)
              eq_refl eq_refl eq_refl) as [Hf Hv].
  split; [exact Hf|exact Hv].
Defined.
